(** * The snapshot route of the anthropic.com mirror: resolver and server

    Shallow embedding of [v2/app/www.anthropic.com/[[...path]]/route.ts]
    and of the parts of the JavaScript runtime it calls.

    Modelling conventions.
    - A JavaScript string is the list of its code units.  Code units are
      taken below 256 ([ascii]); the request path is a URL pathname, which is
      percent-encoded ASCII.
    - The host is a POSIX host, so [path] is [path.posix].
    - Every [await] of the route is a pure query of one [FileSystem]
      value.  What [stat] reports of a path and whether a read of it goes
      through are separate fields of that value, so a read that fails
      after [stat] has reported a regular file (permissions, a file removed
      in between) is a file system of the model.  A rejected promise is the
      outcome [Thrown]. *)

From Stdlib Require Import ZArith Lia List Ascii String Bool Strings.Byte.
From stdpp Require Import gmap strings list.
Import ListNotations.

Local Open Scope Z_scope.
Local Open Scope list_scope.

(** ** JavaScript strings *)

Abbreviation jsstring := (list ascii).

(** A string literal of the source. *)
Definition str (s : string) : jsstring := list_ascii_of_string s.
Arguments str s%_string.

Definition is_slash (c : ascii) : bool := Ascii.eqb c "/"%char.
Definition is_dot (c : ascii) : bool := Ascii.eqb c "."%char.

Definition jsstring_eqb (a b : jsstring) : bool := bool_decide (a = b).

Module JS.

(** [s.length] *)
Definition length (s : jsstring) : Z := Z.of_nat (List.length s).

(** [s.startsWith(prefix)] *)
Fixpoint startsWith (s prefix : jsstring) {struct prefix} : bool :=
  match prefix, s with
  | [], _ => true
  | _ :: _, [] => false
  | p :: prefix', c :: s' => Ascii.eqb c p && startsWith s' prefix'
  end.

(** [s.slice(a, b)] for the index ranges the runtime uses
    (negative indices do not occur; [b < a] gives the empty string). *)
Definition slice (s : jsstring) (a b : Z) : jsstring :=
  take (Z.to_nat (b - a)) (drop (Z.to_nat a) s).

(** [s.replace(/^\/+/, empty)]: the longest run of slashes at the start
    is removed. *)
Fixpoint strip_leading_slashes (s : jsstring) : jsstring :=
  match s with
  | c :: s' => if is_slash c then strip_leading_slashes s' else s
  | [] => []
  end.

(** [s.replace(/\/+$/, empty)]: the first match of [\/+$] is the whole run
    of slashes that reaches the end of the string. *)
Definition strip_trailing_slashes (s : jsstring) : jsstring :=
  rev (strip_leading_slashes (rev s)).

(** [s.toLowerCase()] on code units below 256: the ASCII capitals and the
    Latin-1 capitals U+00C0..U+00DE other than U+00D7 move up by 32. *)
Definition lower_code (n : N) : N :=
  if ((65 <=? n) && (n <=? 90))%N then (n + 32)%N
  else if ((192 <=? n) && (n <=? 222) && negb (n =? 215))%N then (n + 32)%N
  else n.

Definition toLowerCase_unit (c : ascii) : ascii :=
  ascii_of_N (lower_code (N_of_ascii c)).

Definition toLowerCase (s : jsstring) : jsstring := map toLowerCase_unit s.

(** Truthiness of a string: only the empty string is falsy. *)
Definition truthy (s : jsstring) : bool :=
  match s with [] => false | _ :: _ => true end.

(** [s.charCodeAt(i)]; [None] is the [NaN] of an index out of range. *)
Definition charCodeAt (s : jsstring) (i : Z) : option ascii :=
  if i <? 0 then None else nth_error s (Z.to_nat i).

(** [s.lastIndexOf("/")], found from the end; -1 when there is none. *)
Fixpoint lastIndexOf_slash_from (rs : jsstring) (i : Z) : Z :=
  match rs with
  | [] => -1
  | c :: rs' => if is_slash c then i else lastIndexOf_slash_from rs' (i - 1)
  end.

Definition lastIndexOf_slash (s : jsstring) : Z :=
  lastIndexOf_slash_from (rev s) (length s - 1).

(** [Set<string>.add]: insertion order is kept, a member is not added
    twice. *)
Definition Set_add (x : jsstring) (set : list jsstring) : list jsstring :=
  if existsb (jsstring_eqb x) set then set else set ++ [x].

End JS.

(** ** Node's [path.posix]

    The runtime module is not part of the repository; these definitions
    follow lib/path.js of Node.js, loop by loop. *)

Module NodePath.

(** [segs.join("/")] *)
Fixpoint join_slash (segs : list jsstring) : jsstring :=
  match segs with
  | [] => []
  | [seg] => seg
  | seg :: segs' => seg ++ "/"%char :: join_slash segs'
  end.

(** The variables of the loop of [normalizeString]. *)
Record norm_state := mk_norm_state {
  res : jsstring;
  lastSegmentLength : Z;
  lastSlash : Z;
  dots : Z
}.

Definition norm_init : norm_state :=
  {| res := []; lastSegmentLength := 0; lastSlash := -1; dots := 0 |}.

(** [s.charCodeAt(i) !== CHAR_DOT] *)
Definition not_dot_at (s : jsstring) (i : Z) : bool :=
  match JS.charCodeAt s i with
  | Some c => negb (is_dot c)
  | None => true
  end.

(** The body of the loop of [normalizeString] when the character at index
    [i] is a separator (or [i] is the end of a path that does not end with
    one).  Every branch leaves [lastSlash = i] and [dots = 0]. *)
Definition at_separator (path : jsstring) (allowAboveRoot : bool) (i : Z)
    (st : norm_state) : norm_state :=
  let next (r : jsstring) (l : Z) :=
    {| res := r; lastSegmentLength := l; lastSlash := i; dots := 0 |} in
  let above_root :=
    if allowAboveRoot then
      next (res st ++ (if 0 <? JS.length (res st) then str "/.." else str ".."))
           2
    else next (res st) (lastSegmentLength st) in
  if (lastSlash st =? i - 1) || (dots st =? 1) then
    next (res st) (lastSegmentLength st)
  else if dots st =? 2 then
    if (JS.length (res st) <? 2) || negb (lastSegmentLength st =? 2)
       || not_dot_at (res st) (JS.length (res st) - 1)
       || not_dot_at (res st) (JS.length (res st) - 2)
    then
      if 2 <? JS.length (res st) then
        let lastSlashIndex := JS.lastIndexOf_slash (res st) in
        if lastSlashIndex =? -1 then next [] 0
        else
          let res' := JS.slice (res st) 0 lastSlashIndex in
          next res' (JS.length res' - 1 - JS.lastIndexOf_slash res')
      else if negb (JS.length (res st) =? 0) then next [] 0
      else above_root
    else above_root
  else
    next (if 0 <? JS.length (res st)
          then res st ++ "/"%char :: JS.slice path (lastSlash st + 1) i
          else JS.slice path (lastSlash st + 1) i)
         (i - lastSlash st - 1).

(** The loop of [normalizeString] from index [i] on: [rest] holds
    [path[i]], [path[i+1]], ..., and [code] the character read last. *)
Fixpoint normalizeString_loop (path : jsstring) (allowAboveRoot : bool)
    (rest : jsstring) (i : Z) (code : ascii) (st : norm_state) : jsstring :=
  match rest with
  | [] =>
      if is_slash code then res st
      else res (at_separator path allowAboveRoot i st)
  | code' :: rest' =>
      let st' :=
        if is_slash code' then at_separator path allowAboveRoot i st
        else if is_dot code' && negb (dots st =? -1) then
          {| res := res st; lastSegmentLength := lastSegmentLength st;
             lastSlash := lastSlash st; dots := dots st + 1 |}
        else
          {| res := res st; lastSegmentLength := lastSegmentLength st;
             lastSlash := lastSlash st; dots := -1 |} in
      normalizeString_loop path allowAboveRoot rest' (i + 1) code' st'
  end.

Definition normalizeString (path : jsstring) (allowAboveRoot : bool)
    : jsstring :=
  normalizeString_loop path allowAboveRoot path 0 Ascii.zero norm_init.

Definition isAbsolute (path : jsstring) : bool :=
  match path with c :: _ => is_slash c | [] => false end.

Definition trailingSeparator (path : jsstring) : bool :=
  match rev path with c :: _ => is_slash c | [] => false end.

(** [path.posix.normalize] *)
Definition normalize (path : jsstring) : jsstring :=
  match path with
  | [] => str "."
  | _ :: _ =>
      let isAbs := isAbsolute path in
      let trailing := trailingSeparator path in
      let path' := normalizeString path (negb isAbs) in
      match path' with
      | [] =>
          if isAbs then str "/"
          else if trailing then str "./" else str "."
      | _ :: _ =>
          let path'' := if trailing then path' ++ str "/" else path' in
          if isAbs then "/"%char :: path'' else path''
      end
  end.

(** [path.posix.join(...args)]: the non-empty arguments are glued with
    ["/"] and the result is normalized. *)
Definition join (args : list jsstring) : jsstring :=
  match List.filter JS.truthy args with
  | [] => str "."
  | joined => normalize (join_slash joined)
  end.

(** [path.posix.extname]: one scan from the last character to the first. *)
Record ext_scan := mk_ext_scan {
  startDot : Z;
  startPart : Z;
  end_ : Z;
  matchedSlash : bool;
  preDotState : Z
}.

Definition ext_init : ext_scan :=
  {| startDot := -1; startPart := 0; end_ := -1;
     matchedSlash := true; preDotState := 0 |}.

(** [extname_loop rpath i st]: [rpath] holds [path[i]], [path[i-1]], ...,
    [path[0]]. *)
Fixpoint extname_loop (rpath : jsstring) (i : Z) (st : ext_scan)
    : ext_scan :=
  match rpath with
  | [] => st
  | code :: rest =>
      if is_slash code then
        if negb (matchedSlash st) then
          {| startDot := startDot st; startPart := i + 1; end_ := end_ st;
             matchedSlash := matchedSlash st;
             preDotState := preDotState st |}
        else extname_loop rest (i - 1) st
      else
        let st1 :=
          if end_ st =? -1 then
            {| startDot := startDot st; startPart := startPart st;
               end_ := i + 1; matchedSlash := false;
               preDotState := preDotState st |}
          else st in
        let st2 :=
          if is_dot code then
            if startDot st1 =? -1 then
              {| startDot := i; startPart := startPart st1;
                 end_ := end_ st1; matchedSlash := matchedSlash st1;
                 preDotState := preDotState st1 |}
            else if negb (preDotState st1 =? 1) then
              {| startDot := startDot st1; startPart := startPart st1;
                 end_ := end_ st1; matchedSlash := matchedSlash st1;
                 preDotState := 1 |}
            else st1
          else if negb (startDot st1 =? -1) then
            {| startDot := startDot st1; startPart := startPart st1;
               end_ := end_ st1; matchedSlash := matchedSlash st1;
               preDotState := -1 |}
          else st1 in
        extname_loop rest (i - 1) st2
  end.

Definition extname_scan (path : jsstring) : ext_scan :=
  extname_loop (rev path) (JS.length path - 1) ext_init.

(** The test that makes [extname] return the empty string. *)
Definition no_extension (st : ext_scan) : bool :=
  (startDot st =? -1) || (end_ st =? -1) || (preDotState st =? 0)
  || ((preDotState st =? 1) && (startDot st =? end_ st - 1)
      && (startDot st =? startPart st + 1)).

Definition extname (path : jsstring) : jsstring :=
  let st := extname_scan path in
  if no_extension st then [] else JS.slice path (startDot st) (end_ st).

(** *** The segment view of [normalizeString]

    What the loop computes, piece by piece between the slashes; the
    properties of [normalize] are proved on this view, which
    [normalizeString_segments] shows to be the loop. *)

(** [s.split("/")] *)
Fixpoint split_slash (s : jsstring) : list jsstring :=
  match s with
  | [] => [[]]
  | c :: s' =>
      if is_slash c then [] :: split_slash s'
      else match split_slash s' with
           | seg :: segs => (c :: seg) :: segs
           | [] => [[c]]
           end
  end.

Definition dotdot : jsstring := str "..".

(** One piece of the path against the result built so far, kept as a
    stack of segments with the last one on top.
    - an empty piece ([lastSlash === i - 1]) or ["."] ([dots === 1]) is
      dropped;
    - [".."] ([dots === 2]) removes the last segment unless there is none
      or it is [".."] itself, in which case [".."] is kept only when
      [allowAboveRoot];
    - any other piece is appended. *)
Definition normalize_step (allowAboveRoot : bool)
    (stack : list jsstring) (seg : jsstring) : list jsstring :=
  if jsstring_eqb seg [] || jsstring_eqb seg (str ".") then stack
  else if jsstring_eqb seg dotdot then
    match stack with
    | last :: stack' =>
        if jsstring_eqb last dotdot
        then (if allowAboveRoot then dotdot :: stack else stack)
        else stack'
    | [] => if allowAboveRoot then [dotdot] else []
    end
  else seg :: stack.

Definition normalize_segments (allowAboveRoot : bool)
    (segs : list jsstring) : list jsstring :=
  rev (fold_left (normalize_step allowAboveRoot) segs []).

End NodePath.

(** ** The file system and HTTP responses *)

(** What [fs.stat] tells about a path that exists. *)
Record Stats := { isFile : bool }.

(** What a path names, symbolic links followed: a regular file with its
    bytes, or an entry that is not a regular file (a directory, a socket,
    ...), for which [stat.isFile()] is false. *)
Inductive node :=
| File (content : list byte)
| Directory.

(** The file system as the route sees it: what each path names, if
    anything, which is what [fs.stat] reports; and whether a read of the
    path goes through.  The two are separate facts: a regular file may be
    unreadable (permissions, a file removed between [stat] and
    [readFile]). *)
Record FileSystem := {
  fs_entry : jsstring -> option node;
  fs_readable : jsstring -> bool
}.

(** [fs.stat(p)]; [None] is a rejected promise: nothing has this name. *)
Definition fs_stat (fs : FileSystem) (p : jsstring) : option Stats :=
  match fs_entry fs p with
  | Some (File _) => Some {| isFile := true |}
  | Some Directory => Some {| isFile := false |}
  | None => None
  end.

(** [fs.readFile(p)]; [None] is a rejected promise: nothing has this name,
    or it is not a regular file, or the read fails. *)
Definition fs_readFile (fs : FileSystem) (p : jsstring)
    : option (list byte) :=
  match fs_entry fs p with
  | Some (File content) => if fs_readable fs p then Some content else None
  | _ => None
  end.

(** The body argument of [new Response(body, init)]. *)
Inductive BodyInit :=
| BodyNull
| BodyText (text : jsstring)
| BodyBuffer (bytes : list byte).

Record Response := {
  status : Z;
  headers : gmap jsstring jsstring;
  body : BodyInit
}.

(** [new Response(body, { status, headers })] of the Fetch standard: the
    status defaults to 200, and a text body brings its own content type
    when the headers name none. *)
Definition new_Response (b : BodyInit) (st : option Z)
    (hs : gmap jsstring jsstring) : Response :=
  {| status := default 200 st;
     headers :=
       match b, hs !! str "content-type" with
       | BodyText _, None =>
           <[str "content-type" := str "text/plain;charset=UTF-8"]> hs
       | _, _ => hs
       end;
     body := b |}.

(** The result of an [async] function: the value it resolves to, or a
    rejection. *)
Inductive outcome (A : Type) :=
| Returned (a : A)
| Thrown.
Arguments Returned {A} a.
Arguments Thrown {A}.

(** ** route.ts *)

Section Route.

(** [process.cwd()] *)
Variable cwd : jsstring.
Variable fs : FileSystem.

Definition SNAPSHOT_ROOT : jsstring :=
  NodePath.join [cwd; str "reference"; str "www.anthropic.com"].

Definition MIME_BY_EXT : gmap jsstring jsstring :=
  list_to_map [
    (str ".avif", str "image/avif");
    (str ".css", str "text/css; charset=utf-8");
    (str ".gif", str "image/gif");
    (str ".html", str "text/html; charset=utf-8");
    (str ".ico", str "image/x-icon");
    (str ".jpeg", str "image/jpeg");
    (str ".jpg", str "image/jpeg");
    (str ".js", str "application/javascript; charset=utf-8");
    (str ".json", str "application/json; charset=utf-8");
    (str ".map", str "application/json; charset=utf-8");
    (str ".mp4", str "video/mp4");
    (str ".pdf", str "application/pdf");
    (str ".png", str "image/png");
    (str ".svg", str "image/svg+xml");
    (str ".txt", str "text/plain; charset=utf-8");
    (str ".webm", str "video/webm");
    (str ".webp", str "image/webp");
    (str ".woff", str "font/woff");
    (str ".woff2", str "font/woff2");
    (str ".xml", str "application/xml; charset=utf-8")
  ].

(** [MIME_BY_EXT[ext] ?? "application/octet-stream"].  The property lookup
    of the object also sees [Object.prototype], whose property names are
    neither empty nor start with a dot, as every extension is or does
    ([extname_empty_or_dot]); so the lookup is the lookup of the table. *)
Definition getMimeType (filePath : jsstring) : jsstring :=
  let ext := JS.toLowerCase (NodePath.extname filePath) in
  default (str "application/octet-stream") (MIME_BY_EXT !! ext).

(** [exists]: a failing [fs.stat] is caught and answers [false]. *)
Definition exists_ (filePath : jsstring) : bool :=
  match fs_stat fs filePath with
  | Some stat => isFile stat
  | None => false
  end.

Definition sanitizePath (rawPath : jsstring) : jsstring :=
  let normalized :=
    JS.strip_leading_slashes
      (NodePath.normalize ("/"%char :: rawPath)) in
  if JS.startsWith normalized (str "../")
     || jsstring_eqb normalized (str "..")
  then []
  else normalized.

(** The first half of [resolveSnapshotFile]: the candidate set, in
    insertion order. *)
Definition candidates_of (requestPath : jsstring) : list jsstring :=
  let cleanedPath := sanitizePath requestPath in
  let hasExt := negb (jsstring_eqb (NodePath.extname cleanedPath) []) in
  let trimmed := JS.strip_trailing_slashes cleanedPath in
  let candidates := [] in
  if negb (JS.truthy trimmed) then
    JS.Set_add (str "index.html") candidates
  else
    let candidates := JS.Set_add trimmed candidates in
    if negb hasExt then
      let candidates := JS.Set_add (trimmed ++ str ".html") candidates in
      JS.Set_add (NodePath.join [trimmed; str "index.html"]) candidates
    else candidates.

(** The second half of [resolveSnapshotFile]: the [for ... of] loop over
    the candidates. *)
Fixpoint first_snapshot (candidates : list jsstring) : option jsstring :=
  match candidates with
  | [] => None
  | candidate :: rest =>
      let absolute := NodePath.join [SNAPSHOT_ROOT; candidate] in
      if negb (JS.startsWith absolute SNAPSHOT_ROOT) then first_snapshot rest
      else if exists_ absolute then Some absolute
      else first_snapshot rest
  end.

Definition resolveSnapshotFile (requestPath : jsstring) : option jsstring :=
  first_snapshot (candidates_of requestPath).

Definition serveFile (requestPath : jsstring) (headOnly : bool)
    : outcome Response :=
  match resolveSnapshotFile requestPath with
  | None => Returned (new_Response (BodyText (str "Not Found")) (Some 404) ∅)
  | Some snapshotFile =>
      if negb (JS.truthy snapshotFile) then
        Returned (new_Response (BodyText (str "Not Found")) (Some 404) ∅)
      else
        let headers : gmap jsstring jsstring :=
          <[str "content-type" := getMimeType snapshotFile]>
            (<[str "cache-control" := str "public, max-age=0"]> ∅) in
        if headOnly then Returned (new_Response BodyNull None headers)
        else
          match fs_readFile fs snapshotFile with
          | None => Thrown
          | Some body => Returned (new_Response (BodyBuffer body) None headers)
          end
  end.

(** [pathname.replace(/^\/www\.anthropic\.com\/?/, empty)]: the route
    prefix and one slash after it, if any, are removed. *)
Definition strip_route_prefix (pathname : jsstring) : jsstring :=
  let pre := str "/www.anthropic.com" in
  if JS.startsWith pathname pre then
    match drop (List.length pre) pathname with
    | c :: rest => if is_slash c then rest else c :: rest
    | [] => []
    end
  else pathname.

(** A request is known to the route by [request.nextUrl.pathname]. *)
Definition getRequestPath (pathname : jsstring) : jsstring :=
  strip_route_prefix pathname.

Definition GET (pathname : jsstring) : outcome Response :=
  serveFile (getRequestPath pathname) false.

Definition HEAD (pathname : jsstring) : outcome Response :=
  serveFile (getRequestPath pathname) true.

End Route.

(** ** Sample file systems *)

(** A file system given by a finite table of its entries, every read of
    which goes through. *)
Definition table_fs (t : gmap jsstring node) : FileSystem :=
  {| fs_entry := fun p => t !! p; fs_readable := fun _ => true |}.

Definition demo_cwd : jsstring := str "/srv/site".

Definition demo_fs : FileSystem :=
  table_fs (list_to_map [
    (str "/srv/site/reference/www.anthropic.com/index.html", File [x68; x69]);
    (str "/srv/site/reference/www.anthropic.com/a", Directory);
    (str "/srv/site/reference/www.anthropic.com/a/b.html", File [x61]);
    (str "/srv/site/reference/www.anthropic.com/a/b", Directory);
    (str "/srv/site/reference/www.anthropic.com/a/b/index.html", File [x62]);
    (str "/srv/site/reference/www.anthropic.com/logo.PNG", File [x63])
  ]).

(** A mirror that holds [a.html] and nothing else. *)
Definition page_only_fs : FileSystem :=
  table_fs (list_to_map [
    (str "/srv/site/reference/www.anthropic.com/a.html", File [x61])
  ]).

(** A second mirror: it agrees with [demo_fs] on the candidates of ["a/b"]
    and differs elsewhere. *)
Definition other_fs : FileSystem :=
  table_fs (list_to_map [
    (str "/srv/site/reference/www.anthropic.com/a", Directory);
    (str "/srv/site/reference/www.anthropic.com/a/b.html", File [x7a; x7a]);
    (str "/srv/site/reference/www.anthropic.com/a/b", Directory);
    (str "/srv/site/reference/www.anthropic.com/a/b/index.html", File []);
    (str "/srv/site/reference/www.anthropic.com/extra.txt", File [x64])
  ]).

(** The mirror of [demo_fs] with [a/b.html] unreadable: [stat] reports a
    regular file, [readFile] rejects. *)
Definition locked_fs : FileSystem :=
  {| fs_entry := fs_entry demo_fs;
     fs_readable := fun p =>
       negb (jsstring_eqb p
               (str "/srv/site/reference/www.anthropic.com/a/b.html")) |}.

(** ** Vocabulary of the statements *)

Section Vocabulary.
Import NodePath.

Definition no_slash (seg : jsstring) : Prop :=
  Forall (fun c => is_slash c = false) seg.

(** A segment that normalization keeps as it is. *)
Definition proper (seg : jsstring) : Prop :=
  seg <> [] /\ seg <> str "." /\ seg <> dotdot.

Definition proper_segment (seg : jsstring) : bool :=
  negb (jsstring_eqb seg []) && negb (jsstring_eqb seg (str "."))
  && negb (jsstring_eqb seg dotdot).

(** The shape of the result stack of [normalizeString]: proper segments
    above a run of [".."], which is empty unless [allowAboveRoot]. *)
Definition normal_stack (a : bool) (st : list jsstring) : Prop :=
  exists P k, st = P ++ repeat dotdot k /\ Forall proper P /\
              (a = false -> k = 0%nat).

(** A segment of the result of [normalizeString]. *)
Definition seg_ok (seg : jsstring) : Prop := seg <> [] /\ no_slash seg.

(** The value of [dots] after the loop has read the piece [cur] since the
    last slash. *)
Definition dots_of (cur : jsstring) : Z :=
  if forallb is_dot cur then JS.length cur else -1.

Definition top_length (stack : list jsstring) : Z :=
  match stack with
  | [] => 0
  | top :: _ => JS.length top
  end.

(** The variables of the loop of [normalizeString] against its segment
    view, before the character at index [i] is read: [stack] holds the
    segments kept so far, the last one on top, and [cur] is the piece read
    since the last slash. *)
Definition loop_rel (i : Z) (st : norm_state) (stack : list jsstring)
    (cur : jsstring) : Prop :=
  res st = join_slash (rev stack)
  /\ lastSegmentLength st = top_length stack
  /\ lastSlash st = i - 1 - JS.length cur
  /\ dots st = dots_of cur
  /\ Forall seg_ok stack.

(** What the scan of [extname] keeps true of the indices it records, on a
    path of length [B], before it reads the character at index [i]. *)
Definition scan_inv (B i : Z) (st : ext_scan) : Prop :=
  (end_ st = -1 \/ i + 2 <= end_ st <= B)
  /\ (startDot st = -1 \/ (i + 1 <= startDot st /\ startDot st < end_ st)).

(** The dot that [extname] records is a dot of the path. *)
Definition scan_dot (path : jsstring) (st : ext_scan) : Prop :=
  startDot st = -1 \/ JS.charCodeAt path (startDot st) = Some "."%char.

(** The scan of [extname] tells slashes, dots and other characters apart
    and nothing more. *)
Definition same_class (c d : ascii) : Prop :=
  is_slash c = is_slash d /\ is_dot c = is_dot d.

(** The segments that are left of a request path: the normal form of the
    path taken from the root. *)
Definition clean_segments (requestPath : jsstring) : list jsstring :=
  normalize_segments false (split_slash requestPath).

(** The segments of the mirror root. *)
Definition root_segments (cwd : jsstring) : list jsstring :=
  normalize_segments (negb (isAbsolute cwd)) (split_slash cwd)
  ++ [str "reference"; str "www.anthropic.com"].

(** A relative path in normal form: proper segments joined by slashes. *)
Definition relative_normal (c : jsstring) : Prop :=
  exists C, C <> [] /\ Forall proper C /\ Forall no_slash C /\
            c = join_slash C.

(** The location of the relative path [c] under [root]. *)
Definition under_root (root c : jsstring) : jsstring :=
  root ++ "/"%char :: c.

(** [location] lies within [root]: it is [root], a slash, and a relative
    path all of whose segments are proper, so that no segment steps back
    out of [root].  (Symbolic links inside the mirror are not part of the
    model.) *)
Definition inside_root (root location : jsstring) : bool :=
  JS.startsWith location (root ++ str "/")
  && forallb proper_segment
       (split_slash (drop (List.length root + 1) location)).

(** The ordered fallback, over the path [t] it is applied to:
    ["index.html"] for an empty or root path; otherwise the path itself,
    then, when it has no extension, the path with [".html"] and with
    ["/index.html"] appended. *)
Definition fallback (t : jsstring) : list jsstring :=
  if jsstring_eqb t [] || jsstring_eqb t (str "/") then [str "index.html"]
  else
    t :: (if jsstring_eqb (extname t) []
          then [t ++ str ".html"; t ++ str "/index.html"]
          else []).

(** The resolver the specification words describe: the first existing
    location of the ordered fallback over the request path as given. *)
Definition resolve_as_worded (cwd : jsstring) (fs : FileSystem)
    (requestPath : jsstring) : option jsstring :=
  List.find (exists_ fs)
    (map (under_root (SNAPSHOT_ROOT cwd)) (fallback requestPath)).

(** A request path with a [".."] segment that would leave the root: walking
    the segments from depth 0, some [".."] is met at depth 0. *)
Fixpoint escapes_from (depth : nat) (segs : list jsstring) : bool :=
  match segs with
  | [] => false
  | seg :: rest =>
      if jsstring_eqb seg [] || jsstring_eqb seg (str ".")
      then escapes_from depth rest
      else if jsstring_eqb seg dotdot then
        match depth with
        | O => true
        | S d => escapes_from d rest
        end
      else escapes_from (S depth) rest
  end.

Definition escapes_root (requestPath : jsstring) : bool :=
  escapes_from 0 (split_slash requestPath).

(** The response to a path that does not resolve. *)
Definition not_found_response : Response :=
  {| status := 404;
     headers := {[ str "content-type" := str "text/plain;charset=UTF-8" ]};
     body := BodyText (str "Not Found") |}.

(** The headers sent with a file. *)
Definition file_headers (file : jsstring) : gmap jsstring jsstring :=
  {[ str "cache-control" := str "public, max-age=0";
     str "content-type" := getMimeType file ]}.

Definition file_response (file : jsstring) (b : BodyInit) : Response :=
  {| status := 200; headers := file_headers file; body := b |}.

(** The path with its extension in lower case, the rest as it is. *)
Definition lowercase_extension (path : jsstring) : jsstring :=
  let st := extname_scan path in
  if no_extension st then path
  else
    take (Z.to_nat (startDot st)) path
    ++ JS.toLowerCase (JS.slice path (startDot st) (end_ st))
    ++ drop (Z.to_nat (end_ st)) path.

End Vocabulary.

(** ** Vocabulary of the further properties *)

Section FurtherVocabulary.
Import NodePath.

(** [s] without the slash at its end, if it has one. *)
Definition without_final_slash (s : jsstring) : jsstring :=
  match rev s with
  | c :: r => if is_slash c then rev r else s
  | [] => s
  end.

(** The shape of a sanitized path: empty, or proper segments separated by
    single slashes, with at most one slash after the last of them. *)
Definition sanitized_shape (s : jsstring) : bool :=
  jsstring_eqb s []
  || forallb proper_segment (split_slash (without_final_slash s)).

Definition not_slash (c : ascii) : bool := negb (is_slash c).

(** A character that is neither a slash nor a dot. *)
Definition plain (c : ascii) : Prop := is_slash c = false /\ is_dot c = false.

(** An index recorded by the scan of [extname], moved [k] places to the
    right; -1 stays the mark of an index not yet recorded. *)
Definition shift_index (k v : Z) : Z := if v =? -1 then -1 else v + k.

(** The scan of a path against the scan of the same path behind [k] more
    characters ([startPart] is compared where the scans end). *)
Definition shifted (k : Z) (st st' : ext_scan) : Prop :=
  startDot st' = shift_index k (startDot st)
  /\ end_ st' = shift_index k (end_ st)
  /\ matchedSlash st' = matchedSlash st
  /\ preDotState st' = preDotState st.

Definition scan_sane (st : ext_scan) : Prop :=
  (startDot st = -1 \/ 0 <= startDot st)
  /\ (end_ st = -1 \/ 0 <= end_ st)
  /\ (end_ st <> -1 -> matchedSlash st = false).

(** The prefix that [getRequestPath] removes. *)
Definition route_prefix : jsstring := str "/www.anthropic.com".

End FurtherVocabulary.

(** * Sample values *)

(** Values the Node.js documentation gives for these functions. *)
Example normalize_doc :
  NodePath.normalize (str "/foo/bar//baz/asdf/quux/..")
  = str "/foo/bar/baz/asdf".
Proof. reflexivity. Qed.

Example normalize_relative :
  map NodePath.normalize
    [[]; str "./"; str "a/../../b/"; str "../../x/./y"; str "//";
     str "a/.."; str "/a/../.."; str "a/b/../..//"; str "/..a/b../...";
     str "x/../../.."]
  = [str "."; str "./"; str "../b/"; str "../../x/y"; str "/";
     str "."; str "/"; str "./"; str "/..a/b../..."; str "../.."].
Proof. reflexivity. Qed.

Example join_doc :
  NodePath.join [str "/foo"; str "bar"; str "baz/asdf"; str "quux"; str ".."]
  = str "/foo/bar/baz/asdf".
Proof. reflexivity. Qed.

Example extname_doc :
  map NodePath.extname
    [str "index.html"; str "index.coffee.md"; str "index."; str "index";
     str ".index"; str ".index.md"; str "a/b.c/"; str ".."; str "a.b/..";
     str "..."; str "x/.a."]
  = [str ".html"; str ".md"; str "."; []; []; str ".md"; str ".c";
     []; []; str "."; str "."].
Proof. reflexivity. Qed.

(** Values of the route's own functions. *)
Example sanitizePath_values :
  map sanitizePath
    [[]; str "/"; str "a/b"; str "a/b/"; str "//a//b//"; str "..";
     str "../../etc/passwd"; str "a/../../b"; str "./a/./b/.."]
  = [[]; []; str "a/b"; str "a/b/"; str "a/b/"; [];
     str "etc/passwd"; str "b"; str "a"].
Proof. reflexivity. Qed.

Example getRequestPath_values :
  map getRequestPath
    [str "/www.anthropic.com"; str "/www.anthropic.com/";
     str "/www.anthropic.com/news/x"; str "/www.anthropic.com//x";
     str "/www.anthropic.community"; str "/other"]
  = [[]; []; str "news/x"; str "/x"; str "munity"; str "/other"].
Proof. reflexivity. Qed.

Example candidates_values :
  map candidates_of [[]; str "a/b/"; str "logo.PNG"; str "../x"]
  = [[str "index.html"];
     [str "a/b"; str "a/b.html"; str "a/b/index.html"];
     [str "logo.PNG"];
     [str "x"; str "x.html"; str "x/index.html"]].
Proof. reflexivity. Qed.

(** * String primitives *)

Section Strings.

Lemma ascii_eqb_refl c : Ascii.eqb c c = true.
Proof. by apply Ascii.eqb_eq. Qed.

Lemma startsWith_app pre r : JS.startsWith (pre ++ r) pre = true.
Proof.
  induction pre as [|p pre IH]; simpl; [done|].
  by rewrite ascii_eqb_refl, IH.
Qed.

Lemma startsWith_inv s pre :
  JS.startsWith s pre = true -> exists r, s = pre ++ r.
Proof.
  revert s. induction pre as [|p pre IH]; intros s H; simpl in *.
  - by exists s.
  - destruct s as [|c s]; [done|].
    apply andb_true_iff in H as [Hc H]. apply Ascii.eqb_eq in Hc as ->.
    destruct (IH s H) as [r ->]. by exists r.
Qed.

Lemma strip_trailing_slashes_snoc_slash s :
  JS.strip_trailing_slashes (s ++ [ "/"%char ]) = JS.strip_trailing_slashes s.
Proof. unfold JS.strip_trailing_slashes. by rewrite rev_unit. Qed.

Lemma strip_trailing_slashes_snoc w c :
  is_slash c = false -> JS.strip_trailing_slashes (w ++ [c]) = w ++ [c].
Proof.
  intros Hc. unfold JS.strip_trailing_slashes. rewrite rev_unit. simpl.
  rewrite Hc. by rewrite <- (rev_unit w c), rev_involutive.
Qed.

Lemma JS_length_nonneg (s : jsstring) : 0 <= JS.length s.
Proof. unfold JS.length. lia. Qed.

Lemma JS_length_app (a b : jsstring) :
  JS.length (a ++ b) = JS.length a + JS.length b.
Proof. unfold JS.length. rewrite length_app. lia. Qed.

Lemma JS_length_cons c (s : jsstring) : JS.length (c :: s) = 1 + JS.length s.
Proof. unfold JS.length. simpl List.length. lia. Qed.

Lemma JS_length_nil : JS.length [] = 0.
Proof. reflexivity. Qed.

Lemma JS_length_zero (s : jsstring) : JS.length s = 0 -> s = [].
Proof. unfold JS.length. by destruct s. Qed.

Lemma slice_app_l s x a b :
  0 <= a -> b <= JS.length s -> JS.slice (s ++ x) a b = JS.slice s a b.
Proof.
  unfold JS.slice, JS.length. intros Ha Hb.
  destruct (decide (a <= b)) as [Hab|Hab].
  - rewrite drop_app_le by lia. rewrite take_app_le; [done|].
    rewrite length_drop. lia.
  - by replace (Z.to_nat (b - a)) with 0%nat by lia.
Qed.

Lemma slice_middle (l1 l2 l3 : jsstring) a b :
  a = JS.length l1 -> b - a = JS.length l2 ->
  JS.slice (l1 ++ l2 ++ l3) a b = l2.
Proof.
  unfold JS.length. intros Ha Hb. unfold JS.slice.
  rewrite drop_app_length' by lia. by rewrite take_app_length' by lia.
Qed.

End Strings.

(** Arithmetic on the lengths of concatenations. *)
Ltac js_length :=
  rewrite ?JS_length_app, ?JS_length_cons, ?JS_length_nil; lia.

(** * Segments of a path *)

Section Segments.
Import NodePath.

Lemma is_slash_true c : is_slash c = true <-> c = "/"%char.
Proof. apply Ascii.eqb_eq. Qed.

Lemma split_slash_nonempty s : split_slash s <> [].
Proof.
  destruct s as [|c s]; simpl; [done|].
  destruct (is_slash c); [done|]. by destruct (split_slash s).
Qed.

Lemma split_slash_app a b :
  split_slash (a ++ "/"%char :: b) = split_slash a ++ split_slash b.
Proof.
  induction a as [|c a IH]; simpl; [reflexivity|].
  rewrite IH. destruct (is_slash c); [reflexivity|].
  destruct (split_slash a) eqn:E; [|reflexivity].
  by destruct (split_slash_nonempty a).
Qed.

Lemma split_slash_snoc a :
  split_slash (a ++ [ "/"%char ]) = split_slash a ++ [[]].
Proof. apply split_slash_app. Qed.

Lemma split_slash_no_slash s : no_slash s -> split_slash s = [s].
Proof.
  induction 1 as [|c s Hc _ IH]; simpl; [reflexivity|].
  by rewrite Hc, IH.
Qed.

Lemma split_slash_Forall s : Forall no_slash (split_slash s).
Proof.
  induction s as [|c s IH]; simpl.
  - repeat constructor.
  - destruct (is_slash c) eqn:Hc.
    + constructor; [constructor | exact IH].
    + destruct (split_slash s) as [|seg segs]; repeat constructor; auto.
      * by inversion IH.
      * by inversion IH.
Qed.

Lemma join_slash_cons seg segs :
  segs <> [] -> join_slash (seg :: segs) = seg ++ "/"%char :: join_slash segs.
Proof. by destruct segs. Qed.

Lemma join_slash_app a b :
  a <> [] -> b <> [] ->
  join_slash (a ++ b) = join_slash a ++ "/"%char :: join_slash b.
Proof.
  intros Ha Hb. induction a as [|x a IH]; [done|].
  destruct a as [|y a].
  - simpl app. by rewrite join_slash_cons.
  - change ((x :: y :: a) ++ b) with (x :: (y :: a) ++ b).
    rewrite !join_slash_cons by done. rewrite IH by done.
    by rewrite <- app_assoc.
Qed.

Lemma split_join segs :
  segs <> [] -> Forall no_slash segs -> split_slash (join_slash segs) = segs.
Proof.
  intros Hne H. induction H as [|seg segs Hseg Hsegs IH]; [done|].
  destruct segs as [|seg' segs].
  - by apply split_slash_no_slash.
  - rewrite join_slash_cons by done. rewrite split_slash_app.
    rewrite split_slash_no_slash by done. rewrite IH by done. reflexivity.
Qed.

Lemma proper_nonempty seg : proper seg -> seg <> [].
Proof. by intros [? _]. Qed.

Lemma normalize_step_proper a res seg :
  proper seg -> normalize_step a res seg = seg :: res.
Proof.
  intros (H1 & H2 & H3). unfold normalize_step, jsstring_eqb.
  by rewrite !bool_decide_eq_false_2.
Qed.

Lemma fold_proper a segs res :
  Forall proper segs ->
  fold_left (normalize_step a) segs res = rev segs ++ res.
Proof.
  intros H. revert res.
  induction H as [|seg segs Hseg _ IH]; intros res; simpl; [reflexivity|].
  rewrite normalize_step_proper by done. rewrite IH.
  by rewrite <- app_assoc.
Qed.

Lemma normalize_segments_app_proper a A C :
  Forall proper C ->
  normalize_segments a (A ++ C) = normalize_segments a A ++ C.
Proof.
  intros H. unfold normalize_segments.
  rewrite fold_left_app, fold_proper by done.
  by rewrite rev_app_distr, rev_involutive.
Qed.

Lemma normalize_segments_snoc_empty a A :
  normalize_segments a (A ++ [[]]) = normalize_segments a A.
Proof. unfold normalize_segments. by rewrite fold_left_app. Qed.

Lemma normalize_segments_cons_empty a A :
  normalize_segments a ([] :: A) = normalize_segments a A.
Proof. reflexivity. Qed.

End Segments.

(** * Normal forms of [normalizeString] *)

Section NormalForm.
Import NodePath.

Lemma dotdot_not_proper : ~ proper dotdot.
Proof. by intros (_ & _ & H). Qed.

Lemma normalize_step_dotdot_run k :
  normalize_step true (repeat dotdot k) dotdot = repeat dotdot (S k).
Proof. by destruct k. Qed.

Lemma normalize_step_normal a st seg :
  normal_stack a st -> normal_stack a (normalize_step a st seg).
Proof.
  intros (P & k & -> & HP & Hk). unfold normalize_step, jsstring_eqb.
  case_bool_decide as H1; [by exists P, k|]. simpl.
  case_bool_decide as H2; [by exists P, k|]. simpl.
  case_bool_decide as H3.
  - destruct P as [|p P]; simpl.
    + destruct k as [|k]; simpl.
      * destruct a; [by exists [], 1%nat | by exists [], 0%nat].
      * destruct a; [by exists [], (S (S k)) | by exists [], (S k)].
    + inversion HP as [|? ? Hp HP']; subst.
      rewrite bool_decide_eq_false_2.
      * by exists P, k.
      * intros ->. by apply dotdot_not_proper.
  - exists (seg :: P), k. split; [done|]. split; [|done].
    constructor; [done|exact HP].
Qed.

Lemma fold_normal a segs st :
  normal_stack a st -> normal_stack a (fold_left (normalize_step a) segs st).
Proof.
  revert st. induction segs as [|seg segs IH]; intros st H; simpl; [done|].
  apply IH. by apply normalize_step_normal.
Qed.

Lemma normal_stack_nil a : normal_stack a [].
Proof. by exists [], 0%nat. Qed.

Lemma fold_dotdot_run k j :
  fold_left (normalize_step true) (repeat dotdot k) (repeat dotdot j)
  = repeat dotdot (k + j).
Proof.
  revert j. induction k as [|k IH]; intros j; simpl; [done|].
  rewrite (normalize_step_dotdot_run j), IH. by rewrite Nat.add_succ_r.
Qed.

Lemma rev_repeat {A} (x : A) k : rev (repeat x k) = repeat x k.
Proof.
  induction k as [|k IH]; simpl; [done|].
  rewrite IH. by rewrite <- repeat_cons.
Qed.

(** Normalizing a normal form again changes nothing. *)
Lemma fold_normal_fixed a st :
  normal_stack a st -> fold_left (normalize_step a) (rev st) [] = st.
Proof.
  intros (P & k & -> & HP & Hk).
  rewrite rev_app_distr, rev_repeat, fold_left_app.
  assert (fold_left (normalize_step a) (repeat dotdot k) [] = repeat dotdot k)
    as ->.
  { destruct a.
    - change (@nil jsstring) with (repeat dotdot 0).
      rewrite fold_dotdot_run. f_equal. lia.
    - by rewrite Hk. }
  rewrite fold_proper by (by apply Forall_rev).
  by rewrite rev_involutive.
Qed.

Lemma normalize_segments_idem a segs :
  normalize_segments a (normalize_segments a segs)
  = normalize_segments a segs.
Proof.
  unfold normalize_segments.
  rewrite fold_normal_fixed; [done|].
  apply fold_normal, normal_stack_nil.
Qed.

Lemma normalize_segments_false_proper segs :
  Forall proper (normalize_segments false segs).
Proof.
  destruct (fold_normal false segs [] (normal_stack_nil _))
    as (P & k & E & HP & Hk).
  unfold normalize_segments. rewrite E, Hk by done. simpl.
  rewrite app_nil_r. by apply Forall_rev.
Qed.

Lemma normalize_step_no_slash a st seg :
  Forall no_slash st -> no_slash seg ->
  Forall no_slash (normalize_step a st seg).
Proof.
  intros Hst Hseg. unfold normalize_step.
  assert (Hdd : no_slash dotdot) by (repeat constructor).
  repeat (case_match; try done); try (by constructor).
  by inversion Hst.
Qed.

Lemma normalize_segments_no_slash a segs :
  Forall no_slash segs -> Forall no_slash (normalize_segments a segs).
Proof.
  intros H. unfold normalize_segments. apply Forall_rev.
  assert (Hnil : Forall no_slash (@nil jsstring)) by constructor.
  revert Hnil. generalize (@nil jsstring).
  induction H as [|seg segs Hseg _ IH]; intros st Hst; simpl; [done|].
  apply IH. by apply normalize_step_no_slash.
Qed.

End NormalForm.

(** * The loop of [normalizeString] and its segment view *)

Section NormalizeLoop.
Import NodePath.

Lemma dots_of_snoc cur c :
  dots_of (cur ++ [c])
  = if is_dot c && negb (dots_of cur =? -1) then dots_of cur + 1 else -1.
Proof.
  unfold dots_of. rewrite forallb_app, JS_length_app. simpl forallb.
  pose proof (JS_length_nonneg cur).
  destruct (forallb is_dot cur), (is_dot c); simpl;
    try reflexivity.
  replace (JS.length cur =? -1) with false by lia. reflexivity.
Qed.

Lemma is_dot_true c : is_dot c = true <-> c = "."%char.
Proof. apply Ascii.eqb_eq. Qed.

Lemma empty_test i st cur :
  lastSlash st = i - 1 - JS.length cur ->
  (lastSlash st =? i - 1) = jsstring_eqb cur [].
Proof.
  intros ->. unfold jsstring_eqb. pose proof (JS_length_nonneg cur).
  case_bool_decide as E.
  - subst. change (JS.length []) with 0. rewrite Z.sub_0_r.
    apply Z.eqb_refl.
  - assert (JS.length cur <> 0) by (intros E'; by apply JS_length_zero in E').
    lia.
Qed.

Lemma dot_test cur : (dots_of cur =? 1) = jsstring_eqb cur (str ".").
Proof.
  unfold dots_of, jsstring_eqb. case_bool_decide as E; [by subst|].
  destruct (forallb is_dot cur) eqn:F; [|done].
  destruct cur as [|c [|c' cur]]; [done| |].
  - simpl in F. rewrite andb_true_r in F. apply is_dot_true in F as ->. done.
  - rewrite !JS_length_cons. pose proof (JS_length_nonneg cur). lia.
Qed.

Lemma dotdot_test cur : (dots_of cur =? 2) = jsstring_eqb cur dotdot.
Proof.
  unfold dots_of, jsstring_eqb. case_bool_decide as E; [by subst|].
  destruct (forallb is_dot cur) eqn:F; [|done].
  destruct cur as [|c [|c' [|c'' cur]]]; [done|done| |].
  - simpl in F. rewrite andb_true_r in F. apply andb_true_iff in F as [F1 F2].
    apply is_dot_true in F1 as ->. apply is_dot_true in F2 as ->. done.
  - rewrite !JS_length_cons. pose proof (JS_length_nonneg cur). lia.
Qed.

Lemma join_slash_snoc B top :
  join_slash (B ++ [top])
  = match B with [] => top | _ :: _ => join_slash B ++ "/"%char :: top end.
Proof. destruct B; [done|]. by rewrite join_slash_app. Qed.

Lemma seg_ok_join_nonempty B :
  B <> [] -> Forall seg_ok B -> join_slash B <> [].
Proof.
  intros Hne H. destruct H as [|seg B [Hseg _] _]; [done|].
  destruct seg; [done|]. by destruct B.
Qed.

Lemma lastIndexOf_slash_from_no_slash r r' i :
  no_slash r ->
  JS.lastIndexOf_slash_from (r ++ r') i
  = JS.lastIndexOf_slash_from r' (i - JS.length r).
Proof.
  intros H. revert i. induction H as [|c r Hc _ IH]; intros i; simpl.
  - f_equal. unfold JS.length. simpl. lia.
  - rewrite Hc, IH. f_equal. rewrite JS_length_cons. lia.
Qed.

Lemma no_slash_rev s : no_slash s -> no_slash (rev s).
Proof. apply Forall_rev. Qed.

Lemma lastIndexOf_slash_no_slash top :
  no_slash top -> JS.lastIndexOf_slash top = -1.
Proof.
  intros H. unfold JS.lastIndexOf_slash.
  rewrite <- (app_nil_r (rev top)).
  by rewrite lastIndexOf_slash_from_no_slash by (by apply no_slash_rev).
Qed.

Lemma lastIndexOf_slash_app X top :
  no_slash top -> JS.lastIndexOf_slash (X ++ "/"%char :: top) = JS.length X.
Proof.
  intros H. unfold JS.lastIndexOf_slash.
  rewrite rev_app_distr. simpl rev. rewrite <- app_assoc.
  rewrite lastIndexOf_slash_from_no_slash by (by apply no_slash_rev).
  simpl. unfold JS.length. rewrite length_app, length_rev. simpl. lia.
Qed.

(** The length of the last segment, as the loop recomputes it after it has
    removed a segment. *)
Lemma top_length_join top stack :
  Forall seg_ok (top :: stack) ->
  JS.length (join_slash (rev (top :: stack))) - 1
  - JS.lastIndexOf_slash (join_slash (rev (top :: stack)))
  = JS.length top.
Proof.
  intros H. inversion H as [|? ? [_ Htop] _]; subst.
  simpl rev. rewrite join_slash_snoc. destruct (rev stack) as [|b B].
  - rewrite lastIndexOf_slash_no_slash by done. lia.
  - rewrite lastIndexOf_slash_app by done.
    rewrite JS_length_app, JS_length_cons. lia.
Qed.

Lemma charCodeAt_app_r X Y j :
  0 <= j -> JS.charCodeAt (X ++ Y) (JS.length X + j) = nth_error Y (Z.to_nat j).
Proof.
  intros Hj. unfold JS.charCodeAt, JS.length.
  destruct (Z.ltb_spec (Z.of_nat (List.length X) + j) 0) as [Hlt|_]; [lia|].
  rewrite nth_error_app2 by lia. f_equal. lia.
Qed.

(** The test that keeps the loop from removing a segment: it holds exactly
    when the last segment is [".."]. *)
Lemma pop_test top stack :
  Forall seg_ok (top :: stack) ->
  let r := join_slash (rev (top :: stack)) in
  (JS.length r <? 2) || negb (JS.length top =? 2)
  || not_dot_at r (JS.length r - 1) || not_dot_at r (JS.length r - 2)
  = negb (jsstring_eqb top dotdot).
Proof.
  intros H r. unfold jsstring_eqb.
  destruct (decide (JS.length top = 2)) as [E|E].
  - assert (exists c1 c2, top = [c1; c2]) as (c1 & c2 & ->).
    { destruct top as [|c1 [|c2 [|c3 top]]]; try done; [by eexists _, _|].
      rewrite !JS_length_cons in E. pose proof (JS_length_nonneg top). lia. }
    assert (exists X, r = X ++ [c1; c2]) as (X & Er).
    { subst r. simpl rev. rewrite join_slash_snoc.
      destruct (rev stack) as [|b B]; [by exists []|].
      exists (join_slash (b :: B) ++ [ "/"%char ]). by rewrite <- app_assoc. }
    rewrite Er, JS_length_app.
    replace (JS.length [c1; c2]) with 2 by reflexivity.
    pose proof (JS_length_nonneg X).
    replace (JS.length X + 2 <? 2) with false by lia.
    unfold not_dot_at.
    replace (JS.length X + 2 - 1) with (JS.length X + 1) by lia.
    replace (JS.length X + 2 - 2) with (JS.length X + 0) by lia.
    rewrite !charCodeAt_app_r by lia. simpl.
    destruct (is_dot c1) eqn:E1, (is_dot c2) eqn:E2; simpl;
      try (rewrite bool_decide_eq_false_2; [done|]; intros [= -> ->]; done).
    apply is_dot_true in E1 as ->. apply is_dot_true in E2 as ->.
    by rewrite bool_decide_eq_true_2.
  - replace (JS.length top =? 2) with false by lia. simpl.
    rewrite orb_true_r. simpl.
    rewrite bool_decide_eq_false_2; [done|]. by intros ->.
Qed.

Lemma loop_rel_next i r l stack :
  r = join_slash (rev stack) -> l = top_length stack -> Forall seg_ok stack ->
  loop_rel (i + 1)
    {| res := r; lastSegmentLength := l; lastSlash := i; dots := 0 |}
    stack [].
Proof.
  intros -> -> H. repeat split; simpl; try done.
  unfold JS.length. simpl. lia.
Qed.

Lemma seg_ok_dotdot : seg_ok dotdot.
Proof. split; [done|repeat constructor]. Qed.

(** One separator of the loop is one step of the segment view. *)
Lemma at_separator_rel path a i st stack cur :
  loop_rel i st stack cur ->
  JS.slice path (lastSlash st + 1) i = cur -> no_slash cur ->
  loop_rel (i + 1) (at_separator path a i st) (normalize_step a stack cur) [].
Proof.
  intros (Hres & Hlen & Hslash & Hdots & Hok) Hslice Hcur.
  unfold at_separator, normalize_step.
  rewrite (empty_test i st cur Hslash), Hdots, dot_test, dotdot_test.
  destruct (jsstring_eqb cur [] || jsstring_eqb cur (str ".")) eqn:E1.
  { by apply loop_rel_next. }
  destruct (jsstring_eqb cur dotdot) eqn:E2.
  - destruct stack as [|top stack].
    + rewrite Hres. simpl.
      destruct a; apply loop_rel_next; try done.
      by repeat constructor; try apply seg_ok_dotdot.
    + rewrite Hlen. simpl top_length. rewrite Hres.
      rewrite (pop_test top stack Hok).
      pose proof (Forall_inv Hok) as [Htop1 Htop2].
      pose proof (Forall_inv_tail Hok) as Hok'.
      assert (Hr : join_slash (rev (top :: stack)) <> []).
      { apply seg_ok_join_nonempty; [simpl; by destruct (rev stack)|].
        by apply Forall_rev. }
      destruct (jsstring_eqb top dotdot) eqn:E3; simpl negb; cbv iota.
      * destruct a; apply loop_rel_next; try done.
        -- replace (0 <? JS.length (join_slash (rev (top :: stack))))
             with true.
           2:{ destruct (join_slash (rev (top :: stack))); [done|].
               rewrite JS_length_cons.
               pose proof (JS_length_nonneg l). lia. }
           change (rev (dotdot :: top :: stack))
             with (rev (top :: stack) ++ [dotdot]).
           rewrite join_slash_snoc.
           by destruct (rev (top :: stack)) eqn:Erev.
        -- constructor; [apply seg_ok_dotdot|done].
      * simpl rev in *. rewrite join_slash_snoc in *.
        destruct (rev stack) as [|b B] eqn:Erev.
        -- assert (stack = []) as ->.
           { apply (f_equal (@rev _)) in Erev.
             by rewrite rev_involutive in Erev. }
           rewrite lastIndexOf_slash_no_slash by done. simpl.
           destruct (2 <? JS.length top); [by apply loop_rel_next|].
           replace (JS.length top =? 0) with false.
           2:{ destruct top; [done|]. rewrite JS_length_cons.
               pose proof (JS_length_nonneg top). lia. }
           by apply loop_rel_next.
        -- assert (Hstack : stack <> []) by (by intros ->).
           assert (HB : join_slash (b :: B) <> []).
           { apply seg_ok_join_nonempty; [done|].
             rewrite <- Erev. by apply Forall_rev. }
           replace (2 <? JS.length (join_slash (b :: B) ++ "/"%char :: top))
             with true.
           2:{ rewrite JS_length_app, JS_length_cons.
               destruct (join_slash (b :: B)) as [|x X]; [done|].
               destruct top as [|t T]; [done|]. rewrite !JS_length_cons.
               pose proof (JS_length_nonneg X).
               pose proof (JS_length_nonneg T). lia. }
           rewrite lastIndexOf_slash_app by done.
           pose proof (JS_length_nonneg (join_slash (b :: B))).
           replace (JS.length (join_slash (b :: B)) =? -1) with false by lia.
           assert (Es : JS.slice (join_slash (b :: B) ++ "/"%char :: top) 0
                          (JS.length (join_slash (b :: B)))
                        = join_slash (b :: B)).
           { unfold JS.slice, JS.length. simpl drop. rewrite drop_0.
             rewrite Z.sub_0_r, Nat2Z.id. by rewrite take_app_length. }
           rewrite Es. rewrite <- Erev.
           destruct stack as [|top' stack']; [done|].
           apply loop_rel_next; [done| |done].
           by rewrite top_length_join.
  - rewrite Hslice. apply loop_rel_next.
    + change (rev (cur :: stack)) with (rev stack ++ [cur]).
      rewrite join_slash_snoc, Hres.
      destruct (rev stack) as [|b B] eqn:Erev; [done|].
      replace (0 <? JS.length (join_slash (b :: B))) with true; [done|].
      assert (HB : join_slash (b :: B) <> []).
      { apply seg_ok_join_nonempty; [done|].
        rewrite <- Erev. by apply Forall_rev. }
      destruct (join_slash (b :: B)); [done|]. rewrite JS_length_cons.
      pose proof (JS_length_nonneg l). lia.
    + simpl. lia.
    + constructor; [|done]. split; [|done].
      intros ->. by rewrite orb_true_l in E1.
Qed.

(** The loop from any index on, against the segment view of the rest. *)
Lemma normalizeString_loop_segments path a rest :
  forall pre cur i code st stack,
    path = pre ++ cur ++ rest -> i = JS.length (pre ++ cur) ->
    no_slash cur -> (is_slash code = true -> cur = []) ->
    loop_rel i st stack cur ->
    normalizeString_loop path a rest i code st
    = join_slash
        (rev (fold_left (normalize_step a) (split_slash (cur ++ rest)) stack)).
Proof.
  induction rest as [|c rest IH]; intros pre cur i code st stack
    Hpath Hi Hcur Hcode Hrel.
  - rewrite app_nil_r. rewrite split_slash_no_slash by done. simpl.
    destruct (is_slash code) eqn:Ec.
    + rewrite (Hcode eq_refl) in *. by destruct Hrel as (-> & _).
    + assert (Hslice : JS.slice path (lastSlash st + 1) i = cur).
      { destruct Hrel as (_ & _ & -> & _). subst path i.
        rewrite JS_length_app. apply slice_middle; lia. }
      by destruct (at_separator_rel path a i st stack cur Hrel Hslice Hcur)
        as (-> & _).
  - simpl normalizeString_loop. destruct (is_slash c) eqn:Ec.
    + apply is_slash_true in Ec as ->.
      assert (Hslice : JS.slice path (lastSlash st + 1) i = cur).
      { destruct Hrel as (_ & _ & -> & _). subst path i.
        rewrite JS_length_app. apply slice_middle; lia. }
      rewrite split_slash_app, split_slash_no_slash by done. simpl fold_left.
      rewrite (IH (pre ++ cur ++ [ "/"%char ]) [] (i + 1) "/"%char
                 (at_separator path a i st) (normalize_step a stack cur)).
      * done.
      * subst path. by rewrite <- !app_assoc.
      * subst i. rewrite app_nil_r. js_length.
      * constructor.
      * done.
      * by apply at_separator_rel.
    + replace (cur ++ c :: rest) with ((cur ++ [c]) ++ rest)
        by (by rewrite <- app_assoc).
      apply (IH pre).
      * subst path. by rewrite <- !app_assoc.
      * subst i. js_length.
      * apply Forall_app. split; [done|]. by repeat constructor.
      * intros E. by rewrite E in Ec.
      * destruct Hrel as (Hres & Hlen & Hslash & Hdots & Hok).
        pose proof (dots_of_snoc cur c) as Hd. rewrite <- Hdots in Hd.
        destruct (is_dot c && negb (dots st =? -1));
          (split; [done|]; split; [done|]; split; [|by split]);
          simpl; rewrite Hslash; js_length.
Qed.

(** [normalizeString] is its segment view. *)
Lemma normalizeString_segments path a :
  normalizeString path a
  = join_slash (normalize_segments a (split_slash path)).
Proof.
  unfold normalizeString, normalize_segments.
  apply (normalizeString_loop_segments path a path [] [] 0 Ascii.zero
           norm_init []); try done.
  repeat split. constructor.
Qed.

End NormalizeLoop.

(** * The shape of [normalize] and [join] *)

Section NormalizeShape.
Import NodePath.

Lemma proper_no_slash_ends seg :
  seg <> [] -> no_slash seg ->
  exists w c, seg = w ++ [c] /\ is_slash c = false.
Proof.
  intros Hne Hns. destruct seg as [|c w _] using rev_ind; [done|].
  exists w, c. split; [done|].
  apply Forall_app in Hns as [_ Hc]. by inversion Hc.
Qed.

Lemma join_slash_ends C :
  C <> [] -> Forall proper C -> Forall no_slash C ->
  exists w c, join_slash C = w ++ [c] /\ is_slash c = false.
Proof.
  intros Hne HP HS. induction C as [|seg C IH]; [done|].
  inversion HP as [|? ? Hp HP']; inversion HS as [|? ? Hs HS']; subst.
  destruct C as [|seg' C].
  - apply proper_no_slash_ends; [by apply proper_nonempty | done].
  - destruct IH as (w & c & E & Hc); [done..|].
    rewrite join_slash_cons by done. rewrite E.
    exists (seg ++ "/"%char :: w), c. split; [|done].
    by rewrite <- app_assoc.
Qed.

Lemma join_slash_starts C :
  C <> [] -> Forall proper C -> Forall no_slash C ->
  exists c w, join_slash C = c :: w /\ is_slash c = false.
Proof.
  intros Hne HP HS. destruct C as [|seg C]; [done|].
  inversion HP as [|? ? Hp _]; inversion HS as [|? ? Hs _]; subst.
  destruct seg as [|c seg]; [by destruct Hp|].
  exists c. inversion Hs; subst.
  destruct C; simpl; eauto.
Qed.

Lemma trailingSeparator_snoc w c : trailingSeparator (w ++ [c]) = is_slash c.
Proof. unfold trailingSeparator. by rewrite rev_unit. Qed.

Lemma trailingSeparator_join x C :
  C <> [] -> Forall proper C -> Forall no_slash C ->
  trailingSeparator (x ++ join_slash C) = false.
Proof.
  intros Hne HP HS.
  destruct (join_slash_ends C Hne HP HS) as (w & c & -> & Hc).
  by rewrite app_assoc, trailingSeparator_snoc.
Qed.

Lemma join_slash_app_nonempty S C :
  C <> [] -> Forall proper C -> Forall no_slash C -> join_slash (S ++ C) <> [].
Proof.
  intros Hne HP HS.
  destruct (join_slash_starts C Hne HP HS) as (c & w & E & _).
  destruct S as [|s S]; simpl app.
  - by rewrite E.
  - rewrite join_slash_cons by (by destruct S, C).
    by destruct s.
Qed.

(** Appending proper segments to any non-empty path: the segments survive
    normalization untouched, after the normal form of the path. *)
Lemma normalize_append_proper x C :
  x <> [] -> C <> [] -> Forall proper C -> Forall no_slash C ->
  normalize (x ++ "/"%char :: join_slash C)
  = (if isAbsolute x then [ "/"%char ] else [])
    ++ join_slash
         (normalize_segments (negb (isAbsolute x)) (split_slash x) ++ C).
Proof.
  intros Hx Hne HP HS. destruct x as [|c0 x]; [done|].
  unfold normalize. simpl app at 1.
  change (c0 :: x ++ "/"%char :: join_slash C)
    with ((c0 :: x) ++ "/"%char :: join_slash C).
  replace (trailingSeparator ((c0 :: x) ++ "/"%char :: join_slash C))
    with false.
  2:{ symmetry.
      replace ((c0 :: x) ++ "/"%char :: join_slash C)
        with (((c0 :: x) ++ [ "/"%char ]) ++ join_slash C)
        by (by rewrite <- app_assoc).
      by apply trailingSeparator_join. }
  replace (isAbsolute ((c0 :: x) ++ "/"%char :: join_slash C))
    with (isAbsolute (c0 :: x)) by reflexivity.
  rewrite normalizeString_segments.
  rewrite split_slash_app, split_join by done.
  rewrite normalize_segments_app_proper by done.
  pose proof (join_slash_app_nonempty
    (normalize_segments (negb (isAbsolute (c0 :: x))) (split_slash (c0 :: x)))
    C Hne HP HS) as Hj.
  destruct (join_slash _) eqn:E in Hj |- *; [done|].
  rewrite <- E. by destruct (isAbsolute (c0 :: x)).
Qed.

End NormalizeShape.

(** * [extname] *)

Section Extname.
Import NodePath.

Lemma scan_inv_weaken B i j st : j <= i -> scan_inv B i st -> scan_inv B j st.
Proof. unfold scan_inv. lia. Qed.

Lemma extname_loop_bounds B rpath i st :
  i = Z.of_nat (List.length rpath) - 1 -> i + 1 <= B ->
  scan_inv B i st -> scan_inv B (-1) (extname_loop rpath i st).
Proof.
  revert i st. induction rpath as [|c rpath IH]; intros i st Hi HB Hst;
    simpl.
  { eapply scan_inv_weaken; [|exact Hst]. simpl in Hi. lia. }
  simpl in Hi.
  assert (Hi' : i - 1 = Z.of_nat (List.length rpath) - 1) by lia.
  assert (0 <= i) by lia.
  destruct (is_slash c).
  - destruct (matchedSlash st); simpl.
    + apply IH; [done|lia|]. eapply scan_inv_weaken; [|exact Hst]. lia.
    + unfold scan_inv in *. simpl. lia.
  - apply IH; [done|lia|].
    destruct Hst as [He Hd]. unfold scan_inv.
    repeat (case_match; simpl in *; try done); lia.
Qed.

Lemma extname_scan_bounds path :
  scan_inv (JS.length path) (-1) (extname_scan path).
Proof.
  unfold extname_scan. apply extname_loop_bounds.
  - unfold JS.length. by rewrite length_rev.
  - lia.
  - split; by left.
Qed.

Lemma extname_scan_snoc_slash s :
  extname_scan (s ++ [ "/"%char ]) = extname_scan s.
Proof.
  unfold extname_scan. rewrite rev_unit. simpl. f_equal.
  unfold JS.length. rewrite length_app. simpl. lia.
Qed.

Lemma no_extension_false st :
  no_extension st = false -> startDot st <> -1 /\ end_ st <> -1.
Proof.
  unfold no_extension. intros H.
  apply orb_false_iff in H as [H _]. apply orb_false_iff in H as [H _].
  apply orb_false_iff in H as [H1 H2]. lia.
Qed.

(** Slashes at the end of a path do not change its extension. *)
Lemma extname_snoc_slash s : extname (s ++ [ "/"%char ]) = extname s.
Proof.
  unfold extname. rewrite extname_scan_snoc_slash.
  destruct (no_extension (extname_scan s)) eqn:E; [done|].
  apply no_extension_false in E as [E1 E2].
  destruct (extname_scan_bounds s) as [He Hd].
  apply slice_app_l; lia.
Qed.

Lemma extname_loop_dot path rpath :
  forall suffix i st,
    path = rev rpath ++ suffix -> i = Z.of_nat (List.length rpath) - 1 ->
    scan_dot path st -> scan_dot path (extname_loop rpath i st).
Proof.
  induction rpath as [|c rpath IH]; intros suffix i st Hpath Hi Hst; simpl;
    [done|].
  simpl in Hi, Hpath. rewrite <- app_assoc in Hpath.
  assert (Hi' : i - 1 = Z.of_nat (List.length rpath) - 1) by lia.
  assert (Hc : JS.charCodeAt path i = Some c).
  { unfold JS.charCodeAt. destruct (Z.ltb_spec i 0) as [?|_]; [lia|].
    rewrite Hpath, nth_error_app2 by (rewrite length_rev; lia).
    rewrite length_rev. by replace (Z.to_nat i - List.length rpath)%nat
      with 0%nat by lia. }
  destruct (is_slash c).
  - destruct (matchedSlash st); simpl; [by apply (IH ([c] ++ suffix))|done].
  - apply (IH ([c] ++ suffix)); [done..|].
    unfold scan_dot in *.
    destruct (is_dot c) eqn:Ed.
    + apply is_dot_true in Ed as ->.
      repeat (case_match; simpl in *; try done); by right.
    + repeat (case_match; simpl in *; try done).
Qed.

(** An extension is empty or starts with a dot. *)
Lemma extname_empty_or_dot path :
  extname path = [] \/ exists w, extname path = "."%char :: w.
Proof.
  unfold extname.
  destruct (no_extension (extname_scan path)) eqn:E; [by left|right].
  apply no_extension_false in E as [E1 E2].
  destruct (extname_scan_bounds path) as [He [Hd|Hd]]; [done|].
  assert (Hdot : scan_dot path (extname_scan path)).
  { unfold extname_scan. apply (extname_loop_dot path (rev path) []).
    - by rewrite rev_involutive, app_nil_r.
    - unfold JS.length. by rewrite length_rev.
    - by left. }
  destruct Hdot as [Hdot|Hdot]; [done|].
  unfold JS.charCodeAt in Hdot.
  destruct (Z.ltb_spec (startDot (extname_scan path)) 0) as [?|_]; [lia|].
  apply nth_error_split in Hdot as (l1 & l2 & Hp & Hl).
  remember (startDot (extname_scan path)) as sd eqn:Hsd.
  remember (end_ (extname_scan path)) as e eqn:He'.
  clear Hsd He'. subst path. unfold JS.slice.
  rewrite drop_app_length' by done.
  destruct (Z.to_nat (e - sd)) as [|n] eqn:En; [lia|].
  by eexists.
Qed.

End Extname.

(** * The sanitized path *)

Section Sanitize.
Import NodePath.

Lemma clean_segments_proper p : Forall proper (clean_segments p).
Proof. apply normalize_segments_false_proper. Qed.

Lemma clean_segments_no_slash p : Forall no_slash (clean_segments p).
Proof. apply normalize_segments_no_slash, split_slash_Forall. Qed.

Lemma join_slash_proper_nil N :
  Forall proper N -> join_slash N = [] -> N = [].
Proof.
  intros HP E. destruct N as [|seg N]; [done|].
  inversion HP as [|? ? Hp _]; subst.
  destruct seg; [by destruct Hp|]. by destruct N.
Qed.

(** [normalize] of a path taken from the root. *)
Lemma normalize_rooted p :
  exists t, (t = [] \/ t = [ "/"%char ]) /\
    (clean_segments p = [] -> t = []) /\
    normalize ("/"%char :: p) = "/"%char :: join_slash (clean_segments p) ++ t.
Proof.
  unfold normalize. rewrite normalizeString_segments.
  simpl isAbsolute. simpl negb.
  change (split_slash ("/"%char :: p)) with ([] :: split_slash p).
  rewrite normalize_segments_cons_empty. fold (clean_segments p).
  destruct (join_slash (clean_segments p)) eqn:E.
  - exists []. apply join_slash_proper_nil in E as ->;
      [|apply clean_segments_proper].
    by repeat split; [left|..].
  - destruct (trailingSeparator _).
    + exists [ "/"%char ]. split; [by right|]. split; [|done].
      intros E'. by rewrite E' in E.
    + exists []. rewrite app_nil_r. by repeat split; [left|..].
Qed.

Lemma split_cleaned N t :
  N <> [] -> Forall no_slash N -> t = [] \/ t = [ "/"%char ] ->
  exists e, split_slash (join_slash N ++ t) = N ++ e.
Proof.
  intros Hne HS [-> | ->].
  - exists []. by rewrite !app_nil_r, split_join.
  - exists [[]]. by rewrite split_slash_snoc, split_join.
Qed.

(** The sanitized path is the clean segments joined, with at most one
    slash after them; the guard of [sanitizePath] never fires. *)
Lemma sanitizePath_shape p :
  exists t, (t = [] \/ t = [ "/"%char ]) /\
    (clean_segments p = [] -> t = []) /\
    sanitizePath p = join_slash (clean_segments p) ++ t.
Proof.
  destruct (normalize_rooted p) as (t & Ht & Hnil & E).
  exists t. split; [done|]. split; [done|].
  unfold sanitizePath. rewrite E.
  pose proof (clean_segments_proper p) as HP.
  pose proof (clean_segments_no_slash p) as HS.
  set (N := clean_segments p) in *.
  change (JS.strip_leading_slashes ("/"%char :: join_slash N ++ t))
    with (JS.strip_leading_slashes (join_slash N ++ t)).
  destruct (decide (N = [])) as [EN|EN].
  { rewrite EN, (Hnil EN). reflexivity. }
  destruct (join_slash_starts N EN HP HS) as (c & w & Ej & Hc).
  assert (JS.strip_leading_slashes (join_slash N ++ t) = join_slash N ++ t)
    as ->.
  { rewrite Ej. simpl. by rewrite Hc. }
  destruct (split_cleaned N t EN HS Ht) as [e Esplit].
  destruct N as [|seg N]; [done|]. inversion HP as [|? ? Hseg _]; subst.
  destruct (JS.startsWith _ _) eqn:Hsw.
  { apply startsWith_inv in Hsw as [r Er]. rewrite Er in Esplit.
    change (str "../" ++ r) with (dotdot ++ "/"%char :: r) in Esplit.
    rewrite split_slash_app in Esplit. simpl in Esplit.
    injection Esplit as <- _. by destruct dotdot_not_proper. }
  cbn [orb]. unfold jsstring_eqb. case_bool_decide as Hdd; [|done].
  rewrite Hdd in Esplit. simpl in Esplit.
  injection Esplit as <- _. by destruct dotdot_not_proper.
Qed.

End Sanitize.

(** * The candidates *)

Section Candidates.
Import NodePath.

Lemma normalize_segments_proper a N :
  Forall proper N -> normalize_segments a N = N.
Proof.
  intros H. by rewrite <- (app_nil_l N), normalize_segments_app_proper.
Qed.

Lemma index_html_proper : Forall proper [str "index.html"].
Proof. by repeat constructor. Qed.

Lemma index_html_no_slash : Forall no_slash [str "index.html"].
Proof. repeat constructor. Qed.

(** [path.posix.join(trimmed, "index.html")] on a normal form. *)
Lemma join_index N :
  N <> [] -> Forall proper N -> Forall no_slash N ->
  join [join_slash N; str "index.html"]
  = join_slash N ++ str "/index.html".
Proof.
  intros Hne HP HS.
  destruct (join_slash_starts N Hne HP HS) as (c & w & E & Hc).
  unfold join. rewrite E. simpl List.filter. rewrite <- E.
  change (normalize
            (join_slash N ++ "/"%char :: join_slash [str "index.html"])
          = join_slash N ++ str "/index.html").
  rewrite normalize_append_proper;
    [|by rewrite E|done|apply index_html_proper|apply index_html_no_slash].
  replace (isAbsolute (join_slash N)) with false
    by (by rewrite E; simpl; rewrite Hc).
  simpl negb. rewrite split_join, normalize_segments_proper by done.
  by rewrite join_slash_app.
Qed.

Lemma strip_trailing_cleaned N t :
  Forall proper N -> Forall no_slash N ->
  t = [] \/ t = [ "/"%char ] -> (N = [] -> t = []) ->
  JS.strip_trailing_slashes (join_slash N ++ t) = join_slash N.
Proof.
  intros HP HS Ht Hnil. destruct (decide (N = [])) as [->|Hne].
  { by rewrite Hnil. }
  destruct (join_slash_ends N Hne HP HS) as (w & c & -> & Hc).
  destruct Ht as [-> | ->].
  - rewrite app_nil_r. by apply strip_trailing_slashes_snoc.
  - rewrite strip_trailing_slashes_snoc_slash.
    by apply strip_trailing_slashes_snoc.
Qed.

Lemma extname_cleaned s t :
  t = [] \/ t = [ "/"%char ] -> extname (s ++ t) = extname s.
Proof.
  intros [-> | ->]; [by rewrite app_nil_r | apply extname_snoc_slash].
Qed.

Lemma trimmed_clean p :
  JS.strip_trailing_slashes (sanitizePath p) = join_slash (clean_segments p).
Proof.
  destruct (sanitizePath_shape p) as (t & Ht & Hnil & ->).
  apply strip_trailing_cleaned;
    auto using clean_segments_proper, clean_segments_no_slash.
Qed.

Lemma extname_clean p :
  extname (sanitizePath p) = extname (join_slash (clean_segments p)).
Proof.
  destruct (sanitizePath_shape p) as (t & Ht & Hnil & ->).
  by apply extname_cleaned.
Qed.

Lemma app_neq_self (s x : jsstring) : x <> [] -> s ++ x <> s.
Proof.
  intros Hx E. apply Hx.
  apply (app_inv_head s). by rewrite app_nil_r.
Qed.

(** The candidate set of the code is the fallback over the trimmed
    sanitized path; the set never merges two of them. *)
Lemma candidates_of_fallback p :
  candidates_of p = fallback (JS.strip_trailing_slashes (sanitizePath p)).
Proof.
  unfold candidates_of. rewrite extname_clean, trimmed_clean.
  pose proof (clean_segments_proper p) as HP.
  pose proof (clean_segments_no_slash p) as HS.
  set (N := clean_segments p) in *.
  destruct (decide (N = [])) as [EN|EN].
  { by rewrite EN. }
  destruct (join_slash_starts N EN HP HS) as (c & w & E & Hc).
  unfold fallback.
  replace (jsstring_eqb (join_slash N) []) with false
    by (by rewrite E).
  replace (jsstring_eqb (join_slash N) (str "/")) with false.
  2:{ symmetry. apply bool_decide_eq_false_2. rewrite E.
      intros [= -> _]. done. }
  replace (JS.truthy (join_slash N)) with true by (by rewrite E).
  cbn [negb orb]. rewrite negb_involutive.
  destruct (jsstring_eqb (extname (join_slash N)) []); [|done].
  rewrite join_index by done.
  unfold JS.Set_add, jsstring_eqb. cbn [existsb app orb].
  rewrite (bool_decide_eq_false_2 (_ ++ str ".html" = _))
    by (by apply app_neq_self).
  cbn [existsb app orb].
  rewrite (bool_decide_eq_false_2 (_ ++ str "/index.html" = join_slash N))
    by (by apply app_neq_self).
  rewrite bool_decide_eq_false_2; [done|].
  intros E'. by apply app_inv_head in E'.
Qed.

End Candidates.

(** * The mirror root and the locations under it *)

Section Root.
Import NodePath.
Variable cwd : jsstring.

Lemma root_tail_proper :
  Forall proper [str "reference"; str "www.anthropic.com"].
Proof. by repeat constructor. Qed.

Lemma root_tail_no_slash :
  Forall no_slash [str "reference"; str "www.anthropic.com"].
Proof. repeat constructor. Qed.

Lemma SNAPSHOT_ROOT_shape :
  SNAPSHOT_ROOT cwd
  = (if isAbsolute cwd then [ "/"%char ] else [])
    ++ join_slash (root_segments cwd).
Proof.
  unfold SNAPSHOT_ROOT, root_segments, join.
  destruct cwd as [|c0 cwd']; [reflexivity|].
  change (List.filter JS.truthy
            [c0 :: cwd'; str "reference"; str "www.anthropic.com"])
    with [c0 :: cwd'; str "reference"; str "www.anthropic.com"].
  change (join_slash [c0 :: cwd'; str "reference"; str "www.anthropic.com"])
    with ((c0 :: cwd') ++ "/"%char
            :: join_slash [str "reference"; str "www.anthropic.com"]).
  apply normalize_append_proper;
    [done | done | apply root_tail_proper | apply root_tail_no_slash].
Qed.

Lemma root_segments_normal :
  normalize_segments (negb (isAbsolute cwd)) (root_segments cwd)
  = root_segments cwd.
Proof.
  unfold root_segments.
  rewrite <- normalize_segments_app_proper by apply root_tail_proper.
  apply normalize_segments_idem.
Qed.

Lemma root_segments_no_slash : Forall no_slash (root_segments cwd).
Proof.
  apply Forall_app. split; [|apply root_tail_no_slash].
  apply normalize_segments_no_slash, split_slash_Forall.
Qed.

Lemma root_segments_nonempty : root_segments cwd <> [].
Proof. unfold root_segments. by destruct (normalize_segments _ _). Qed.

Lemma normalize_segments_nonempty_segs a segs :
  Forall (fun s => s <> []) (normalize_segments a segs).
Proof.
  destruct (fold_normal a segs [] (normal_stack_nil _))
    as (P & k & E & HP & _).
  unfold normalize_segments. rewrite E. apply Forall_rev, Forall_app.
  split.
  - eapply Forall_impl; [exact HP|]. intros s. apply proper_nonempty.
  - apply List.Forall_forall. intros s Hs. by apply repeat_spec in Hs as ->.
Qed.

Lemma root_segments_head :
  exists c w rest,
    root_segments cwd = (c :: w) :: rest /\ is_slash c = false.
Proof.
  pose proof root_segments_no_slash as HS.
  assert (HN : Forall (fun s => s <> []) (root_segments cwd)).
  { apply Forall_app. split.
    - apply normalize_segments_nonempty_segs.
    - by repeat constructor. }
  pose proof root_segments_nonempty.
  destruct (root_segments cwd) as [|[|c w] rest]; [done| |].
  - by inversion HN.
  - exists c, w, rest. split; [done|].
    inversion HS as [|? ? Hs _]; subst. by inversion Hs.
Qed.

Lemma SNAPSHOT_ROOT_absolute :
  isAbsolute (SNAPSHOT_ROOT cwd) = isAbsolute cwd.
Proof.
  rewrite SNAPSHOT_ROOT_shape.
  destruct (isAbsolute cwd) eqn:E; [reflexivity|].
  destruct root_segments_head as (c & w & rest & -> & Hc).
  simpl. destruct rest; simpl; by rewrite Hc.
Qed.

Lemma SNAPSHOT_ROOT_split :
  normalize_segments (negb (isAbsolute cwd)) (split_slash (SNAPSHOT_ROOT cwd))
  = root_segments cwd.
Proof.
  rewrite SNAPSHOT_ROOT_shape.
  destruct (isAbsolute cwd) eqn:E.
  - change (split_slash ([ "/"%char ] ++ join_slash (root_segments cwd)))
      with ([] :: split_slash (join_slash (root_segments cwd))).
    rewrite normalize_segments_cons_empty.
    rewrite split_join
      by auto using root_segments_nonempty, root_segments_no_slash.
    pose proof root_segments_normal as H. by rewrite E in H.
  - simpl app.
    rewrite split_join
      by auto using root_segments_nonempty, root_segments_no_slash.
    pose proof root_segments_normal as H. by rewrite E in H.
Qed.

(** [path.join(SNAPSHOT_ROOT, candidate)] puts a normal relative path
    under the root, textually. *)
Lemma join_root c :
  relative_normal c ->
  join [SNAPSHOT_ROOT cwd; c] = SNAPSHOT_ROOT cwd ++ "/"%char :: c.
Proof.
  intros (C & Hne & HP & HS & ->).
  destruct (join_slash_starts C Hne HP HS) as (c1 & w1 & E1 & _).
  assert (Hroot : SNAPSHOT_ROOT cwd <> []).
  { rewrite SNAPSHOT_ROOT_shape.
    destruct root_segments_head as (c & w & rest & -> & _).
    destruct (isAbsolute cwd); [done|]. by destruct rest. }
  unfold join.
  assert (List.filter JS.truthy [SNAPSHOT_ROOT cwd; join_slash C]
          = [SNAPSHOT_ROOT cwd; join_slash C]) as ->.
  { rewrite E1. by destruct (SNAPSHOT_ROOT cwd). }
  assert (join_slash [SNAPSHOT_ROOT cwd; join_slash C]
          = SNAPSHOT_ROOT cwd ++ "/"%char :: join_slash C) as -> by done.
  destruct (SNAPSHOT_ROOT cwd) as [|r0 r] eqn:ER; [done|]. rewrite <- ER.
  rewrite normalize_append_proper by (done || by rewrite ER).
  rewrite SNAPSHOT_ROOT_absolute, SNAPSHOT_ROOT_split.
  rewrite join_slash_app by auto using root_segments_nonempty.
  rewrite SNAPSHOT_ROOT_shape. by rewrite <- app_assoc.
Qed.

End Root.

(** * The resolver as a search through the fallback *)

Section Resolver.
Import NodePath.
Variable cwd : jsstring.
Variable fs : FileSystem.

Lemma join_slash_snoc_app N x y :
  join_slash (N ++ [x]) ++ y = join_slash (N ++ [x ++ y]).
Proof.
  destruct (decide (N = [])) as [->|Hne]; [done|].
  rewrite !join_slash_app by done. by rewrite <- app_assoc.
Qed.

Lemma proper_app_html seg : seg <> [] -> proper (seg ++ str ".html").
Proof.
  intros Hne. destruct seg as [|c seg]; [done|].
  repeat split; [done|..]; intros E; apply (f_equal (@List.length _)) in E;
    simpl in E; rewrite length_app in E; simpl in E; lia.
Qed.

Lemma no_slash_app_html seg : no_slash seg -> no_slash (seg ++ str ".html").
Proof. intros H. apply Forall_app. split; [done|]. repeat constructor. Qed.

Lemma relative_normal_html N :
  N <> [] -> Forall proper N -> Forall no_slash N ->
  relative_normal (join_slash N ++ str ".html").
Proof.
  intros Hne HP HS. destruct N as [|l N' _] using rev_ind; [done|].
  apply Forall_app in HP as [HP Hl]. apply Forall_app in HS as [HS Hl'].
  inversion Hl as [|? ? Hl1 _]; inversion Hl' as [|? ? Hl2 _]; subst.
  exists (N' ++ [l ++ str ".html"]). split; [by destruct N'|].
  split; [|split].
  - apply Forall_app. split; [done|].
    constructor; [|done]. by apply proper_app_html, proper_nonempty.
  - apply Forall_app. split; [done|].
    constructor; [|done]. by apply no_slash_app_html.
  - by rewrite join_slash_snoc_app.
Qed.

Lemma relative_normal_index N :
  N <> [] -> Forall proper N -> Forall no_slash N ->
  relative_normal (join_slash N ++ str "/index.html").
Proof.
  intros Hne HP HS. exists (N ++ [str "index.html"]).
  split; [by destruct N|]. split; [|split].
  - apply Forall_app. split; [done|apply index_html_proper].
  - apply Forall_app. split; [done|apply index_html_no_slash].
  - by rewrite join_slash_app.
Qed.

(** Every candidate is a relative path in normal form. *)
Lemma candidates_relative_normal p :
  Forall relative_normal (candidates_of p).
Proof.
  rewrite candidates_of_fallback, trimmed_clean.
  pose proof (clean_segments_proper p) as HP.
  pose proof (clean_segments_no_slash p) as HS.
  set (N := clean_segments p) in *.
  destruct (decide (N = [])) as [EN|EN].
  { rewrite EN. repeat constructor. exists [str "index.html"].
    by auto using index_html_proper, index_html_no_slash. }
  destruct (join_slash_starts N EN HP HS) as (c & w & E & Hc).
  unfold fallback.
  replace (jsstring_eqb (join_slash N) []) with false by (by rewrite E).
  replace (jsstring_eqb (join_slash N) (str "/")) with false.
  2:{ symmetry. apply bool_decide_eq_false_2. rewrite E.
      intros [= -> _]. done. }
  cbn [orb]. constructor; [by exists N|].
  destruct (jsstring_eqb _ _); repeat constructor.
  - by apply relative_normal_html.
  - by apply relative_normal_index.
Qed.

(** The prefix test of the loop never rejects a candidate. *)
Lemma first_snapshot_find cands :
  Forall relative_normal cands ->
  first_snapshot cwd fs cands
  = List.find (exists_ fs) (map (under_root (SNAPSHOT_ROOT cwd)) cands).
Proof.
  induction 1 as [|c cands Hc _ IH]; simpl; [done|].
  rewrite join_root by done. fold (under_root (SNAPSHOT_ROOT cwd) c).
  unfold under_root at 1. rewrite startsWith_app. simpl.
  by rewrite IH.
Qed.

Lemma resolve_fallback p :
  resolveSnapshotFile cwd fs p
  = List.find (exists_ fs)
      (map (under_root (SNAPSHOT_ROOT cwd))
           (fallback (JS.strip_trailing_slashes (sanitizePath p)))).
Proof.
  unfold resolveSnapshotFile.
  rewrite first_snapshot_find by apply candidates_relative_normal.
  by rewrite candidates_of_fallback.
Qed.

End Resolver.

(** * Properties of the resolver *)

Section ResolverProperties.
Import NodePath.
Variable cwd : jsstring.
Variable fs : FileSystem.

Lemma candidates_of_segments p :
  candidates_of p = fallback (join_slash (clean_segments p)).
Proof. by rewrite candidates_of_fallback, trimmed_clean. Qed.

Lemma resolve_segments p q :
  clean_segments p = clean_segments q ->
  resolveSnapshotFile cwd fs p = resolveSnapshotFile cwd fs q.
Proof.
  intros E. unfold resolveSnapshotFile.
  by rewrite !candidates_of_segments, E.
Qed.

Lemma clean_segments_snoc_slash p :
  clean_segments (p ++ [ "/"%char ]) = clean_segments p.
Proof.
  unfold clean_segments.
  by rewrite split_slash_snoc, normalize_segments_snoc_empty.
Qed.

(** The guard of [sanitizePath] is dead: the sanitized path is the
    normalization from the root without its leading slash. *)
Lemma sanitizePath_unguarded p :
  sanitizePath p = JS.strip_leading_slashes (normalize ("/"%char :: p)).
Proof.
  destruct (sanitizePath_shape p) as (t & Ht & Hnil & E).
  pose proof (clean_segments_proper p) as HP.
  pose proof (clean_segments_no_slash p) as HS.
  rewrite E. destruct (normalize_rooted p) as (t' & Ht' & Hnil' & E').
  unfold sanitizePath in E. rewrite E' in *.
  change (JS.strip_leading_slashes
            ("/"%char :: join_slash (clean_segments p) ++ t'))
    with (JS.strip_leading_slashes (join_slash (clean_segments p) ++ t'))
    in *.
  destruct (JS.startsWith _ _ || jsstring_eqb _ _) eqn:G; [|done].
  symmetry in E. apply List.app_eq_nil in E as [E _].
  apply join_slash_proper_nil in E; [|done].
  by rewrite E, (Hnil E), (Hnil' E).
Qed.

Lemma clean_segments_sanitized p :
  clean_segments (sanitizePath p) = clean_segments p.
Proof.
  destruct (sanitizePath_shape p) as (t & Ht & Hnil & ->).
  pose proof (clean_segments_proper p) as HP.
  pose proof (clean_segments_no_slash p) as HS.
  set (N := clean_segments p) in *.
  destruct (decide (N = [])) as [EN|EN].
  { by rewrite EN, (Hnil EN). }
  unfold clean_segments at 1. destruct Ht as [-> | ->].
  - rewrite app_nil_r, split_join by done.
    by apply normalize_segments_proper.
  - rewrite split_slash_snoc, split_join by done.
    rewrite normalize_segments_snoc_empty.
    by apply normalize_segments_proper.
Qed.

Lemma fold_dotdot_rooted k :
  fold_left (normalize_step false) (repeat dotdot k) [] = [].
Proof. induction k as [|k IH]; [done|exact IH]. Qed.

Lemma clean_segments_dotdots k :
  clean_segments (join_slash (repeat dotdot k)) = [].
Proof.
  unfold clean_segments. destruct k as [|k]; [done|].
  rewrite split_join.
  - unfold normalize_segments. by rewrite fold_dotdot_rooted.
  - done.
  - apply List.Forall_forall. intros s Hs.
    apply repeat_spec in Hs as ->. repeat constructor.
Qed.

(** C8. The resolver ignores a trailing slash: a request path followed by
    ["/"] resolves to what the request path resolves to, whatever files
    exist. *)
Theorem resolve_trailing_slash p :
  resolveSnapshotFile cwd fs (p ++ str "/") = resolveSnapshotFile cwd fs p.
Proof. apply resolve_segments, clean_segments_snoc_slash. Qed.

(** C9. Parent-directory segments are absorbed by the normalization
    rooted at ["/"], not rejected: a request path resolves to what the
    normalization of ["/" + path], stripped of its leading slashes,
    resolves to; and a path made of [".."] segments only resolves like the
    empty path, to [index.html] under the root when that file exists. *)
Theorem resolve_absorbs_parent_segments :
  (forall p,
     resolveSnapshotFile cwd fs p
     = resolveSnapshotFile cwd fs
         (JS.strip_leading_slashes (normalize (str "/" ++ p))))
  /\ (forall k,
        resolveSnapshotFile cwd fs (join_slash (repeat dotdot k))
        = resolveSnapshotFile cwd fs [])
  /\ resolveSnapshotFile cwd fs []
     = if exists_ fs (SNAPSHOT_ROOT cwd ++ str "/index.html")
       then Some (SNAPSHOT_ROOT cwd ++ str "/index.html")
       else None.
Proof.
  split; [|split].
  - intros p. apply resolve_segments.
    change (str "/" ++ p) with ("/"%char :: p).
    by rewrite <- sanitizePath_unguarded, clean_segments_sanitized.
  - intros k. apply resolve_segments. by rewrite clean_segments_dotdots.
  - rewrite resolve_fallback. reflexivity.
Qed.

End ResolverProperties.

(** * Containment in the mirror root *)

Section Containment.
Import NodePath.

Lemma proper_segment_true seg : proper seg -> proper_segment seg = true.
Proof.
  intros (H1 & H2 & H3). unfold proper_segment, jsstring_eqb.
  by rewrite !bool_decide_eq_false_2.
Qed.

Lemma inside_root_under root c :
  relative_normal c -> inside_root root (under_root root c) = true.
Proof.
  intros (C & Hne & HP & HS & ->). unfold inside_root, under_root.
  apply andb_true_iff. split.
  - replace (root ++ "/"%char :: join_slash C)
      with ((root ++ str "/") ++ join_slash C) by (by rewrite <- app_assoc).
    apply startsWith_app.
  - rewrite drop_app_add. simpl drop. rewrite drop_0.
    rewrite split_join by done. apply forallb_forall.
    intros seg Hseg. apply proper_segment_true.
    by eapply List.Forall_forall in HP.
Qed.

(** What the resolver returns is a candidate placed under the root. *)
Lemma resolve_some cwd fs p location :
  resolveSnapshotFile cwd fs p = Some location ->
  exists c, In c (candidates_of p) /\ relative_normal c /\
            location = under_root (SNAPSHOT_ROOT cwd) c /\
            exists_ fs location = true.
Proof.
  unfold resolveSnapshotFile.
  rewrite first_snapshot_find by apply candidates_relative_normal.
  intros H. apply find_some in H as [Hin Hex].
  apply in_map_iff in Hin as (c & <- & Hc).
  exists c. repeat split; [done| |done].
  pose proof (candidates_relative_normal p) as HF.
  by eapply List.Forall_forall in HF.
Qed.

End Containment.

(** * The claims about the resolver *)

Lemma isAbsolute_app_l root x :
  NodePath.isAbsolute root = true -> NodePath.isAbsolute (root ++ x) = true.
Proof. by destruct root. Qed.

(** C1. Whatever the request path, [".."] segments included, the resolver
    returns nothing or an absolute location within the mirror root: the
    root, a slash, and a relative path without [".."], ["."] or empty
    segments. *)
Theorem resolve_inside_mirror_root cwd fs p location :
  NodePath.isAbsolute cwd = true ->
  resolveSnapshotFile cwd fs p = Some location ->
  NodePath.isAbsolute location = true
  /\ inside_root (SNAPSHOT_ROOT cwd) location = true.
Proof.
  intros Habs H. apply resolve_some in H as (c & _ & Hc & -> & _). split.
  - apply isAbsolute_app_l. by rewrite SNAPSHOT_ROOT_absolute.
  - by apply inside_root_under.
Qed.

Lemma resolve_inside_mirror_root_witness :
  NodePath.isAbsolute demo_cwd = true
  /\ resolveSnapshotFile demo_cwd demo_fs (str "../../a/./b")
     = Some (str "/srv/site/reference/www.anthropic.com/a/b.html")
  /\ NodePath.isAbsolute (str "/srv/site/reference/www.anthropic.com/a/b.html")
     = true
  /\ inside_root (SNAPSHOT_ROOT demo_cwd)
       (str "/srv/site/reference/www.anthropic.com/a/b.html") = true.
Proof.
  split; [reflexivity|]. split; [vm_compute; reflexivity|].
  apply (resolve_inside_mirror_root demo_cwd demo_fs (str "../../a/./b"));
    vm_compute; reflexivity.
Defined.

(** On a request path that is already sanitized and trimmed, the resolver
    is the fallback over the path as given. *)
Lemma resolve_as_worded_clean cwd fs p :
  JS.strip_trailing_slashes (sanitizePath p) = p ->
  resolve_as_worded cwd fs p = resolveSnapshotFile cwd fs p.
Proof. intros E. unfold resolve_as_worded. by rewrite resolve_fallback, E. Qed.

(** C3, as worded, fails: for the request path ["a/"] in a mirror that holds
    only [a.html], the fallback over the path as given finds nothing
    (["a/"], ["a/.html"], ["a//index.html"]), while the resolver returns
    [a.html]. *)
Lemma resolve_not_as_worded :
  resolve_as_worded demo_cwd page_only_fs (str "a/") = None
  /\ resolveSnapshotFile demo_cwd page_only_fs (str "a/")
     = Some (str "/srv/site/reference/www.anthropic.com/a.html").
Proof. split; vm_compute; reflexivity. Qed.

(** C3, amended. The resolver returns the first existing location of the
    ordered fallback taken over the sanitized path, that is the request
    path normalized from the root and stripped of leading and trailing
    slashes: (1) that path; (2) with [".html"] appended and (3) with
    ["/index.html"] appended, both only if it has no extension;
    (4) ["index.html"] when it is empty; and nothing if none exists. *)
Theorem resolve_first_existing_candidate cwd fs p :
  resolveSnapshotFile cwd fs p
  = List.find (exists_ fs)
      (map (under_root (SNAPSHOT_ROOT cwd))
           (fallback (JS.strip_trailing_slashes (sanitizePath p)))).
Proof. apply resolve_fallback. Qed.

(** C4, as worded, fails: with both [a/b.html] and [a/b/index.html] in the
    mirror, the request path ["a/b/"] resolves to [a/b.html], not to the
    index. *)
Lemma trailing_slash_prefers_page :
  exists_ demo_fs (str "/srv/site/reference/www.anthropic.com/a/b.html") = true
  /\ exists_ demo_fs
       (str "/srv/site/reference/www.anthropic.com/a/b/index.html") = true
  /\ resolveSnapshotFile demo_cwd demo_fs (str "a/b/")
     = Some (str "/srv/site/reference/www.anthropic.com/a/b.html")
  /\ resolveSnapshotFile demo_cwd demo_fs (str "a/b/")
     <> Some (str "/srv/site/reference/www.anthropic.com/a/b/index.html").
Proof.
  repeat split; try (vm_compute; reflexivity). vm_compute. discriminate.
Qed.

(** C4, amended. If the mirror contains the file [a/b.html] and [a/b] is not
    itself a file, the request paths ["a/b"] and ["a/b/"] both resolve to
    [a/b.html], whether or not [a/b/index.html] exists; either request
    resolves to [a/b/index.html] exactly when that file exists and neither
    [a/b] nor [a/b.html] is a file. *)
Theorem resolve_page_before_index cwd fs :
  (exists_ fs (SNAPSHOT_ROOT cwd ++ str "/a/b.html") = true ->
   exists_ fs (SNAPSHOT_ROOT cwd ++ str "/a/b") = false ->
   resolveSnapshotFile cwd fs (str "a/b")
   = Some (SNAPSHOT_ROOT cwd ++ str "/a/b.html")
   /\ resolveSnapshotFile cwd fs (str "a/b/")
      = Some (SNAPSHOT_ROOT cwd ++ str "/a/b.html"))
  /\ (forall p,
        p = str "a/b" \/ p = str "a/b/" ->
        resolveSnapshotFile cwd fs p
        = Some (SNAPSHOT_ROOT cwd ++ str "/a/b/index.html")
        <-> exists_ fs (SNAPSHOT_ROOT cwd ++ str "/a/b/index.html") = true
            /\ exists_ fs (SNAPSHOT_ROOT cwd ++ str "/a/b") = false
            /\ exists_ fs (SNAPSHOT_ROOT cwd ++ str "/a/b.html") = false).
Proof.
  assert (E1 : JS.strip_trailing_slashes (sanitizePath (str "a/b")) = str "a/b")
    by reflexivity.
  assert (E2 : JS.strip_trailing_slashes (sanitizePath (str "a/b/"))
               = str "a/b") by reflexivity.
  assert (R : forall p, p = str "a/b" \/ p = str "a/b/" ->
            resolveSnapshotFile cwd fs p
            = if exists_ fs (SNAPSHOT_ROOT cwd ++ str "/a/b")
              then Some (SNAPSHOT_ROOT cwd ++ str "/a/b")
              else if exists_ fs (SNAPSHOT_ROOT cwd ++ str "/a/b.html")
              then Some (SNAPSHOT_ROOT cwd ++ str "/a/b.html")
              else if exists_ fs (SNAPSHOT_ROOT cwd ++ str "/a/b/index.html")
              then Some (SNAPSHOT_ROOT cwd ++ str "/a/b/index.html")
              else None).
  { intros p [-> | ->]; rewrite resolve_fallback, ?E1, ?E2; reflexivity. }
  split.
  - intros Hpage Hdir.
    rewrite (R (str "a/b")) by (by left).
    rewrite (R (str "a/b/")) by (by right). by rewrite Hdir, Hpage.
  - intros p Hp. rewrite (R p Hp).
    destruct (exists_ fs (SNAPSHOT_ROOT cwd ++ str "/a/b")).
    { split; [|by intros (_ & ? & _)].
      intros [= H%app_inv_head]. discriminate. }
    destruct (exists_ fs (SNAPSHOT_ROOT cwd ++ str "/a/b.html")).
    { split; [|by intros (_ & _ & ?)].
      intros [= H%app_inv_head]. discriminate. }
    destruct (exists_ fs (SNAPSHOT_ROOT cwd ++ str "/a/b/index.html"));
      [done|]. split; [done|by intros (? & _)].
Qed.

Lemma resolve_page_before_index_witness :
  exists_ demo_fs (SNAPSHOT_ROOT demo_cwd ++ str "/a/b") = false
  /\ exists_ demo_fs (SNAPSHOT_ROOT demo_cwd ++ str "/a/b.html") = true
  /\ resolveSnapshotFile demo_cwd demo_fs (str "a/b")
     = Some (SNAPSHOT_ROOT demo_cwd ++ str "/a/b.html")
  /\ resolveSnapshotFile demo_cwd demo_fs (str "a/b/")
     = Some (SNAPSHOT_ROOT demo_cwd ++ str "/a/b.html").
Proof.
  split; [vm_compute; reflexivity|]. split; [vm_compute; reflexivity|].
  apply (proj1 (resolve_page_before_index demo_cwd demo_fs));
    vm_compute; reflexivity.
Defined.

(** C7. The resolver is a function of the request path and of the
    existing-file predicate alone (under the fixed root): it consults the
    predicate at the locations of its candidates only, so two file systems
    that answer alike there give the same result; in particular two
    evaluations under one predicate agree. *)
Theorem resolve_deterministic cwd fs1 fs2 p :
  (forall c, In c (candidates_of p) ->
     exists_ fs1 (NodePath.join [SNAPSHOT_ROOT cwd; c])
     = exists_ fs2 (NodePath.join [SNAPSHOT_ROOT cwd; c])) ->
  resolveSnapshotFile cwd fs1 p = resolveSnapshotFile cwd fs2 p.
Proof.
  unfold resolveSnapshotFile. induction (candidates_of p) as [|c cands IH];
    intros H; simpl; [done|].
  rewrite (H c) by (by left). rewrite IH; [done|].
  intros c' Hc'. apply H. by right.
Qed.

Lemma resolve_deterministic_witness :
  (forall c, In c (candidates_of (str "a/b")) ->
     exists_ demo_fs (NodePath.join [SNAPSHOT_ROOT demo_cwd; c])
     = exists_ other_fs (NodePath.join [SNAPSHOT_ROOT demo_cwd; c]))
  /\ resolveSnapshotFile demo_cwd demo_fs (str "a/b")
     = resolveSnapshotFile demo_cwd other_fs (str "a/b").
Proof.
  assert (H : forall c, In c (candidates_of (str "a/b")) ->
     exists_ demo_fs (NodePath.join [SNAPSHOT_ROOT demo_cwd; c])
     = exists_ other_fs (NodePath.join [SNAPSHOT_ROOT demo_cwd; c])).
  { intros c Hc. vm_compute in Hc.
    destruct Hc as [<- | [<- | [<- | []]]]; vm_compute; reflexivity. }
  split; [exact H|].
  exact (resolve_deterministic demo_cwd demo_fs other_fs (str "a/b") H).
Defined.

(** * The server *)

Section Server.
Import NodePath.

Lemma new_Response_not_found :
  new_Response (BodyText (str "Not Found")) (Some 404) ∅
  = not_found_response.
Proof. reflexivity. Qed.

Lemma file_headers_insert file :
  <[str "content-type" := getMimeType file]>
    (<[str "cache-control" := str "public, max-age=0"]> ∅)
  = file_headers file.
Proof.
  unfold file_headers. rewrite insert_empty.
  apply insert_insert_ne. done.
Qed.

Lemma resolve_truthy cwd fs p file :
  resolveSnapshotFile cwd fs p = Some file -> JS.truthy file = true.
Proof.
  intros H. apply resolve_some in H as (c & _ & _ & -> & _).
  unfold under_root. by destruct (SNAPSHOT_ROOT cwd).
Qed.

(** [exists] answers [true] on regular files only. *)
Lemma exists_is_file fs file :
  exists_ fs file = true ->
  exists content, fs_entry fs file = Some (File content).
Proof.
  unfold exists_, fs_stat.
  destruct (fs_entry fs file) as [[content|]|]; [by exists content|done..].
Qed.

(** What the resolver returns is a regular file. *)
Lemma resolve_is_file cwd fs p file :
  resolveSnapshotFile cwd fs p = Some file ->
  exists content, fs_entry fs file = Some (File content).
Proof.
  intros H. apply resolve_some in H as (c & _ & _ & _ & Hex).
  by apply exists_is_file.
Qed.

(** A resolved path: HEAD answers without a read; GET answers with what
    the read gives, and the rejection of the read is its own. *)
Lemma serveFile_resolved cwd fs p file headOnly :
  resolveSnapshotFile cwd fs p = Some file ->
  serveFile cwd fs p headOnly
  = if headOnly then Returned (file_response file BodyNull)
    else match fs_readFile fs file with
         | Some content => Returned (file_response file (BodyBuffer content))
         | None => Thrown
         end.
Proof.
  intros H. unfold serveFile. rewrite H, (resolve_truthy _ _ _ _ H).
  cbn [negb]. unfold new_Response. cbn [default].
  rewrite file_headers_insert. destruct headOnly; [done|].
  by destruct (fs_readFile fs file).
Qed.

Lemma serveFile_head cwd fs p file :
  resolveSnapshotFile cwd fs p = Some file ->
  serveFile cwd fs p true = Returned (file_response file BodyNull).
Proof. intros H. by rewrite (serveFile_resolved _ _ _ _ true H). Qed.

Lemma serveFile_get cwd fs p file content :
  resolveSnapshotFile cwd fs p = Some file ->
  fs_readFile fs file = Some content ->
  serveFile cwd fs p false
  = Returned (file_response file (BodyBuffer content)).
Proof. intros H F. by rewrite (serveFile_resolved _ _ _ _ false H), F. Qed.

Lemma serveFile_returned cwd fs p file headOnly r :
  resolveSnapshotFile cwd fs p = Some file ->
  serveFile cwd fs p headOnly = Returned r ->
  exists b, r = file_response file b.
Proof.
  intros H S. rewrite (serveFile_resolved _ _ _ _ headOnly H) in S.
  destruct headOnly; [injection S as <-; by eexists|].
  destruct (fs_readFile fs file); [injection S as <-; by eexists|done].
Qed.

Lemma serveFile_thrown cwd fs p headOnly :
  serveFile cwd fs p headOnly = Thrown ->
  headOnly = false
  /\ exists file, resolveSnapshotFile cwd fs p = Some file
                  /\ fs_readFile fs file = None.
Proof.
  intros S. destruct (resolveSnapshotFile cwd fs p) as [file|] eqn:R.
  - rewrite (serveFile_resolved _ _ _ _ headOnly R) in S.
    destruct headOnly; [done|]. split; [done|]. exists file. split; [done|].
    by destruct (fs_readFile fs file).
  - unfold serveFile in S. by rewrite R in S.
Qed.

Lemma serveFile_not_found_iff cwd fs p headOnly :
  resolveSnapshotFile cwd fs p = None
  <-> serveFile cwd fs p headOnly = Returned not_found_response.
Proof.
  split.
  - intros H. unfold serveFile. by rewrite H.
  - destruct (resolveSnapshotFile cwd fs p) as [file|] eqn:R; [|done].
    rewrite (serveFile_resolved _ _ _ _ headOnly R).
    destruct headOnly; [done|]. by destruct (fs_readFile fs file).
Qed.

Lemma serveFile_unresolved cwd fs p headOnly :
  resolveSnapshotFile cwd fs p = None ->
  serveFile cwd fs p headOnly = Returned not_found_response.
Proof. intros H. unfold serveFile. by rewrite H. Qed.

End Server.

(** * The claims about the server *)

(** C2, as worded, fails: [".."] would leave the root, yet it is not
    treated as unresolved; with [index.html] in the mirror the server
    answers 200, where a path that names nothing gets 404. *)
Lemma traversal_not_rejected :
  escapes_root (str "..") = true
  /\ resolveSnapshotFile demo_cwd demo_fs (str "..")
     = Some (str "/srv/site/reference/www.anthropic.com/index.html")
  /\ serveFile demo_cwd demo_fs (str "..") true
     = Returned (file_response
                   (str "/srv/site/reference/www.anthropic.com/index.html")
                   BodyNull)
  /\ serveFile demo_cwd demo_fs (str "..") true <> Returned not_found_response
  /\ serveFile demo_cwd demo_fs (str "no/such/page") true
     = Returned not_found_response.
Proof.
  assert (R : resolveSnapshotFile demo_cwd demo_fs (str "..")
              = Some (str "/srv/site/reference/www.anthropic.com/index.html"))
    by (vm_compute; reflexivity).
  split; [reflexivity|]. split; [exact R|].
  rewrite (serveFile_head _ _ _ _ R).
  split; [reflexivity|]. split; [discriminate|].
  apply serveFile_unresolved. vm_compute. reflexivity.
Qed.

(** C2, amended. A request path with parent-directory segments is not
    rejected: it is served exactly as its sanitized form, in which the
    normalization from the root has absorbed those segments.  The server
    answers with the one 404 response exactly when the path does not
    resolve, whether it held such segments or not, and raises nothing for
    such a path: the only exception it can surface is that of a failing
    read of a resolved file, on GET. *)
Theorem traversal_served_as_sanitized cwd fs p headOnly :
  serveFile cwd fs p headOnly = serveFile cwd fs (sanitizePath p) headOnly
  /\ (serveFile cwd fs p headOnly = Thrown ->
      headOnly = false
      /\ exists file, resolveSnapshotFile cwd fs p = Some file
                      /\ fs_readFile fs file = None)
  /\ (resolveSnapshotFile cwd fs p = None
      <-> serveFile cwd fs p headOnly = Returned not_found_response).
Proof.
  split; [|split].
  - unfold serveFile.
    by rewrite (resolve_segments cwd fs (sanitizePath p) p
                  (clean_segments_sanitized p)).
  - apply serveFile_thrown.
  - apply serveFile_not_found_iff.
Qed.

Lemma traversal_served_as_sanitized_witness :
  serveFile demo_cwd demo_fs (str "../../etc/passwd") false
  = serveFile demo_cwd demo_fs (sanitizePath (str "../../etc/passwd")) false
  /\ resolveSnapshotFile demo_cwd demo_fs (str "../../etc/passwd") = None
  /\ serveFile demo_cwd demo_fs (str "../../etc/passwd") false
     = Returned not_found_response
  /\ serveFile demo_cwd locked_fs (str "../a/b") false = Thrown
  /\ exists file,
       resolveSnapshotFile demo_cwd locked_fs (str "../a/b") = Some file
       /\ fs_readFile locked_fs file = None.
Proof.
  pose proof (traversal_served_as_sanitized demo_cwd demo_fs
                (str "../../etc/passwd") false) as [H1 [_ [H2 _]]].
  split; [exact H1|].
  assert (R : resolveSnapshotFile demo_cwd demo_fs (str "../../etc/passwd")
              = None) by (vm_compute; reflexivity).
  split; [exact R|]. split; [exact (H2 R)|].
  assert (T : serveFile demo_cwd locked_fs (str "../a/b") false = Thrown)
    by (vm_compute; reflexivity).
  split; [exact T|].
  exact (proj2 (proj1 (proj2 (traversal_served_as_sanitized demo_cwd locked_fs
                                (str "../a/b") false)) T)).
Defined.

(** C5, as worded, fails: the request for [a/b] resolves to [a/b.html],
    which [stat] reports as a regular file; the read of it fails, and GET
    answers nothing, while HEAD answers 200. *)
Lemma GET_rejects_on_unreadable_file :
  resolveSnapshotFile demo_cwd locked_fs
    (getRequestPath (str "/www.anthropic.com/a/b"))
  = Some (str "/srv/site/reference/www.anthropic.com/a/b.html")
  /\ fs_stat locked_fs (str "/srv/site/reference/www.anthropic.com/a/b.html")
     = Some {| isFile := true |}
  /\ fs_readFile locked_fs
       (str "/srv/site/reference/www.anthropic.com/a/b.html") = None
  /\ GET demo_cwd locked_fs (str "/www.anthropic.com/a/b") = Thrown
  /\ (forall r, GET demo_cwd locked_fs (str "/www.anthropic.com/a/b")
                <> Returned r)
  /\ HEAD demo_cwd locked_fs (str "/www.anthropic.com/a/b")
     = Returned (file_response
                   (str "/srv/site/reference/www.anthropic.com/a/b.html")
                   BodyNull).
Proof.
  assert (G : GET demo_cwd locked_fs (str "/www.anthropic.com/a/b") = Thrown)
    by (vm_compute; reflexivity).
  split; [vm_compute; reflexivity|]. split; [vm_compute; reflexivity|].
  split; [vm_compute; reflexivity|]. split; [exact G|].
  split; [intros r; by rewrite G|].
  apply serveFile_head. vm_compute. reflexivity.
Qed.

(** C5, amended. For a request path that resolves, HEAD answers 200 with
    the headers [content-type] and [cache-control: public, max-age=0] and
    an empty body, and GET answers the same status and headers with the
    content of the file as body whenever the read of the file gives it; for
    a request path that does not resolve, GET and HEAD both answer 404 with
    the plain text ["Not Found"]. *)
Theorem GET_HEAD_responses cwd fs pathname :
  (forall file,
     resolveSnapshotFile cwd fs (getRequestPath pathname) = Some file ->
     HEAD cwd fs pathname
     = Returned
         {| status := 200;
            headers := {[ str "cache-control" := str "public, max-age=0";
                          str "content-type" := getMimeType file ]};
            body := BodyNull |}
     /\ forall content,
          fs_readFile fs file = Some content ->
          GET cwd fs pathname
          = Returned
              {| status := 200;
                 headers := {[ str "cache-control" := str "public, max-age=0";
                               str "content-type" := getMimeType file ]};
                 body := BodyBuffer content |})
  /\ (resolveSnapshotFile cwd fs (getRequestPath pathname) = None ->
      GET cwd fs pathname
      = Returned {| status := 404;
                    headers := {[ str "content-type"
                                  := str "text/plain;charset=UTF-8" ]};
                    body := BodyText (str "Not Found") |}
      /\ HEAD cwd fs pathname = GET cwd fs pathname).
Proof.
  unfold GET, HEAD. split.
  - intros file R. split.
    + by rewrite (serveFile_head _ _ _ _ R).
    + intros content F. by rewrite (serveFile_get _ _ _ _ _ R F).
  - intros R. by rewrite !(serveFile_unresolved _ _ _ _ R).
Qed.

Lemma GET_HEAD_responses_witness :
  resolveSnapshotFile demo_cwd demo_fs
    (getRequestPath (str "/www.anthropic.com/a/b"))
  = Some (str "/srv/site/reference/www.anthropic.com/a/b.html")
  /\ fs_readFile demo_fs (str "/srv/site/reference/www.anthropic.com/a/b.html")
     = Some [x61]
  /\ HEAD demo_cwd demo_fs (str "/www.anthropic.com/a/b")
     = Returned
         {| status := 200;
            headers := {[ str "cache-control" := str "public, max-age=0";
                          str "content-type"
                          := str "text/html; charset=utf-8" ]};
            body := BodyNull |}
  /\ GET demo_cwd demo_fs (str "/www.anthropic.com/a/b")
     = Returned
         {| status := 200;
            headers := {[ str "cache-control" := str "public, max-age=0";
                          str "content-type"
                          := str "text/html; charset=utf-8" ]};
            body := BodyBuffer [x61] |}
  /\ resolveSnapshotFile demo_cwd demo_fs
       (getRequestPath (str "/www.anthropic.com/missing")) = None
  /\ GET demo_cwd demo_fs (str "/www.anthropic.com/missing")
     = Returned not_found_response.
Proof.
  assert (R : resolveSnapshotFile demo_cwd demo_fs
                (getRequestPath (str "/www.anthropic.com/a/b"))
              = Some (str "/srv/site/reference/www.anthropic.com/a/b.html"))
    by (vm_compute; reflexivity).
  assert (F : fs_readFile demo_fs
                (str "/srv/site/reference/www.anthropic.com/a/b.html")
              = Some [x61]) by (vm_compute; reflexivity).
  assert (N : resolveSnapshotFile demo_cwd demo_fs
                (getRequestPath (str "/www.anthropic.com/missing")) = None)
    by (vm_compute; reflexivity).
  destruct (GET_HEAD_responses demo_cwd demo_fs (str "/www.anthropic.com/a/b"))
    as [H _].
  destruct (GET_HEAD_responses demo_cwd demo_fs
              (str "/www.anthropic.com/missing")) as [_ H'].
  destruct (H' N) as [Hnf _]. destruct (H _ R) as [Hhead Hget].
  split; [exact R|]. split; [exact F|]. split; [exact Hhead|].
  split; [exact (Hget _ F)|]. split; [exact N | exact Hnf].
Defined.

(** * Content types *)

Section ContentType.
Import NodePath.

Lemma toLowerCase_unit_class c : same_class c (JS.toLowerCase_unit c).
Proof. destruct c as [[] [] [] [] [] [] [] []]; by split. Qed.

Lemma toLowerCase_unit_idem c :
  JS.toLowerCase_unit (JS.toLowerCase_unit c) = JS.toLowerCase_unit c.
Proof. destruct c as [[] [] [] [] [] [] [] []]; reflexivity. Qed.

Lemma toLowerCase_idem s : JS.toLowerCase (JS.toLowerCase s) = JS.toLowerCase s.
Proof.
  unfold JS.toLowerCase. rewrite map_map. apply map_ext.
  apply toLowerCase_unit_idem.
Qed.

Lemma same_class_refl s : Forall2 same_class s s.
Proof. induction s; constructor; [by split | done]. Qed.

Lemma same_class_toLowerCase s : Forall2 same_class s (JS.toLowerCase s).
Proof.
  induction s; simpl; constructor; [apply toLowerCase_unit_class | done].
Qed.

Lemma same_class_rev s s' :
  Forall2 same_class s s' -> Forall2 same_class (rev s) (rev s').
Proof.
  induction 1 as [|c d s s' H _ IH]; simpl; [constructor|].
  apply Forall2_app; [done|]. constructor; [done|constructor].
Qed.

Lemma extname_loop_same_class rp rp' i st :
  Forall2 same_class rp rp' -> extname_loop rp i st = extname_loop rp' i st.
Proof.
  intros H. revert i st.
  induction H as [|c d rp rp' [Hs Hd] _ IH]; intros i st; simpl; [done|].
  rewrite <- Hs, <- Hd.
  destruct (is_slash c); [|apply IH].
  destruct (negb (matchedSlash st)); [done|apply IH].
Qed.

Lemma extname_scan_same_class p p' :
  Forall2 same_class p p' -> extname_scan p' = extname_scan p.
Proof.
  intros H. unfold extname_scan, JS.length.
  rewrite <- (Forall2_length _ _ _ H). symmetry.
  by apply extname_loop_same_class, same_class_rev.
Qed.

Lemma slice_decompose p a b :
  0 <= a <= b -> b <= JS.length p ->
  p = take (Z.to_nat a) p ++ JS.slice p a b ++ drop (Z.to_nat b) p.
Proof.
  intros Hab Hb. unfold JS.slice.
  replace (Z.to_nat b) with (Z.to_nat a + Z.to_nat (b - a))%nat by lia.
  rewrite <- drop_drop. by rewrite !take_drop.
Qed.

Lemma slice_length p a b :
  0 <= a <= b -> b <= JS.length p ->
  Z.of_nat (List.length (JS.slice p a b)) = b - a.
Proof.
  unfold JS.slice, JS.length. intros Hab Hb.
  rewrite length_take, length_drop. lia.
Qed.

Lemma scan_has_extension p :
  no_extension (extname_scan p) = false ->
  0 <= startDot (extname_scan p) <= end_ (extname_scan p)
  /\ end_ (extname_scan p) <= JS.length p.
Proof.
  intros E. apply no_extension_false in E as [E1 E2].
  destruct (extname_scan_bounds p) as [He Hd]. lia.
Qed.

Lemma lowercase_extension_class p :
  Forall2 same_class p (lowercase_extension p).
Proof.
  unfold lowercase_extension.
  destruct (no_extension (extname_scan p)) eqn:E; [apply same_class_refl|].
  destruct (scan_has_extension p E) as [Hab Hb].
  rewrite (slice_decompose p _ _ Hab Hb) at 1.
  repeat apply Forall2_app;
    auto using same_class_refl, same_class_toLowerCase.
Qed.

Lemma extname_lowercase_extension p :
  extname (lowercase_extension p) = JS.toLowerCase (extname p).
Proof.
  unfold extname.
  rewrite (extname_scan_same_class _ _ (lowercase_extension_class p)).
  unfold lowercase_extension.
  destruct (no_extension (extname_scan p)) eqn:E; [done|].
  destruct (scan_has_extension p E) as [Hab Hb].
  apply slice_middle.
  - unfold JS.length in *. rewrite length_take. lia.
  - unfold JS.toLowerCase, JS.length. rewrite length_map.
    by rewrite slice_length.
Qed.

Lemma MIME_keys_lowercase ext type :
  MIME_BY_EXT !! ext = Some type -> JS.toLowerCase ext = ext.
Proof.
  intros H. apply elem_of_list_to_map_2 in H.
  repeat (apply elem_of_cons in H as [H|H];
          [by injection H as -> ->|]).
  by apply elem_of_nil in H.
Qed.

End ContentType.

(** * The claims about content types *)

(** C6, as worded, fails: the extension [".PNG"] is absent from the table,
    yet a file that ends in it is not served as
    [application/octet-stream]. *)
Lemma uppercase_extension_recognized :
  resolveSnapshotFile demo_cwd demo_fs (str "logo.PNG")
  = Some (str "/srv/site/reference/www.anthropic.com/logo.PNG")
  /\ NodePath.extname (str "/srv/site/reference/www.anthropic.com/logo.PNG")
     = str ".PNG"
  /\ MIME_BY_EXT !! str ".PNG" = None
  /\ serveFile demo_cwd demo_fs (str "logo.PNG") true
     = Returned {| status := 200;
                   headers := {[ str "cache-control" := str "public, max-age=0";
                                 str "content-type" := str "image/png" ]};
                   body := BodyNull |}.
Proof.
  assert (R : resolveSnapshotFile demo_cwd demo_fs (str "logo.PNG")
              = Some (str "/srv/site/reference/www.anthropic.com/logo.PNG"))
    by (vm_compute; reflexivity).
  split; [exact R|]. split; [reflexivity|]. split; [reflexivity|].
  by rewrite (serveFile_head _ _ _ _ R).
Qed.

(** C6, amended. For every resolved file, the content type of the response
    is the entry of the table for the file's extension, compared in lower
    case (so the entry of the extension itself when the table has one), and
    [application/octet-stream] when the table has no entry for the
    extension in lower case. *)
Theorem content_type_from_table cwd fs p headOnly file r :
  resolveSnapshotFile cwd fs p = Some file ->
  serveFile cwd fs p headOnly = Returned r ->
  (forall type,
     MIME_BY_EXT !! JS.toLowerCase (NodePath.extname file) = Some type ->
     headers r !! str "content-type" = Some type)
  /\ (forall type,
        MIME_BY_EXT !! NodePath.extname file = Some type ->
        headers r !! str "content-type" = Some type)
  /\ (MIME_BY_EXT !! JS.toLowerCase (NodePath.extname file) = None ->
      headers r !! str "content-type" = Some (str "application/octet-stream")).
Proof.
  intros R S. destruct (serveFile_returned _ _ _ _ _ _ R S) as [b ->].
  cbn [headers file_response]. unfold file_headers.
  rewrite lookup_insert_ne by done. rewrite lookup_singleton_eq.
  unfold getMimeType. split; [|split].
  - by intros type ->.
  - intros type H. by rewrite (MIME_keys_lowercase _ _ H), H.
  - by intros ->.
Qed.

Lemma content_type_from_table_witness :
  resolveSnapshotFile demo_cwd demo_fs (str "a/b")
  = Some (str "/srv/site/reference/www.anthropic.com/a/b.html")
  /\ serveFile demo_cwd demo_fs (str "a/b") true
     = Returned (file_response
                   (str "/srv/site/reference/www.anthropic.com/a/b.html")
                   BodyNull)
  /\ MIME_BY_EXT !! JS.toLowerCase (NodePath.extname
       (str "/srv/site/reference/www.anthropic.com/a/b.html"))
     = Some (str "text/html; charset=utf-8")
  /\ headers (file_response
                (str "/srv/site/reference/www.anthropic.com/a/b.html")
                BodyNull) !! str "content-type"
     = Some (str "text/html; charset=utf-8").
Proof.
  assert (R : resolveSnapshotFile demo_cwd demo_fs (str "a/b")
              = Some (str "/srv/site/reference/www.anthropic.com/a/b.html"))
    by (vm_compute; reflexivity).
  assert (S : serveFile demo_cwd demo_fs (str "a/b") true
              = Returned (file_response
                   (str "/srv/site/reference/www.anthropic.com/a/b.html")
                   BodyNull))
    by (by rewrite (serveFile_head _ _ _ _ R)).
  assert (M : MIME_BY_EXT !! JS.toLowerCase (NodePath.extname
                (str "/srv/site/reference/www.anthropic.com/a/b.html"))
              = Some (str "text/html; charset=utf-8")) by reflexivity.
  split; [exact R|]. split; [exact S|]. split; [exact M|].
  exact (proj1 (content_type_from_table demo_cwd demo_fs (str "a/b") true
                  _ _ R S) _ M).
Defined.

(** C10. The content type does not depend on the case of the extension: a
    path and the same path with its extension in lower case get the same
    type, so that a file ending in [".PNG"] is [image/png]. *)
Theorem getMimeType_case_insensitive :
  (forall filePath,
     getMimeType filePath = getMimeType (lowercase_extension filePath))
  /\ lowercase_extension (str "img/logo.PNG") = str "img/logo.png"
  /\ getMimeType (str "img/logo.PNG") = str "image/png".
Proof.
  split; [|by split].
  intros filePath. unfold getMimeType.
  by rewrite extname_lowercase_extension, toLowerCase_idem.
Qed.


(** * Further properties of [extname] *)

Section ExtnameMore.
Import NodePath.

Lemma shift_index_test k v :
  0 <= k -> v = -1 \/ 0 <= v -> (shift_index k v =? -1) = (v =? -1).
Proof. unfold shift_index. intros Hk [-> | Hv]; [done|]. case_match; lia. Qed.

(** The scan of [rp], the reversed name, inside a longer path where a slash
    comes before the name: the same scan, [k] places to the right. *)
Lemma extname_loop_prefix k r2 rp :
  forall i st st',
    i = Z.of_nat (List.length rp) - 1 -> 0 <= k ->
    scan_sane st -> shifted k st st' -> startPart st = 0 ->
    matchedSlash st = false \/ existsb not_slash rp = true ->
    shifted k (extname_loop rp i st)
      (extname_loop (rp ++ "/"%char :: r2) (i + k) st')
    /\ startPart (extname_loop (rp ++ "/"%char :: r2) (i + k) st')
       = startPart (extname_loop rp i st) + k.
Proof.
  induction rp as [|c rp IH]; intros i st st' Hi Hk Hsane Hsh Hsp Hns.
  - destruct Hns as [Hm|Hm]; [|done]. simpl.
    destruct Hsh as (H1 & H2 & H3 & H4). rewrite H3, Hm. simpl.
    rewrite Hsp. simpl in Hi. repeat split; try done. lia.
  - simpl in Hi. simpl app. simpl extname_loop.
    assert (Hi' : i - 1 = Z.of_nat (List.length rp) - 1) by lia.
    replace (i + k - 1) with (i - 1 + k) by lia.
    destruct (is_slash c) eqn:Ec.
    + pose proof Hsh as (H1 & H2 & H3 & H4). rewrite H3.
      destruct (matchedSlash st) eqn:Em; simpl negb; cbv iota.
      * apply IH; try done.
        destruct Hns as [?|Hns]; [done|]. right. simpl in Hns.
        unfold not_slash in Hns at 1. by rewrite Ec in Hns.
      * simpl. repeat split; try done. lia.
    + destruct st as [sd sp e ms pd], st' as [sd' sp' e' ms' pd'].
      destruct Hsane as (S1 & S2 & S3).
      destruct Hsh as (H1 & H2 & H3 & H4). simpl in *. subst sd' e' ms' pd' sp.
      rewrite !(shift_index_test k e Hk S2).
      destruct (Z.eqb_spec e (-1)) as [He|He]; simpl;
        rewrite ?(shift_index_test k sd Hk S1);
        (apply IH; [done|done|..]);
        unfold scan_sane, shifted, shift_index;
        destruct (is_dot c), (Z.eqb_spec sd (-1)), (Z.eqb_spec pd 1);
        simpl; repeat split; try done; try lia;
        repeat case_match; try lia; auto.
Qed.

Lemma existsb_rev {A} (f : A -> bool) l : existsb f (rev l) = existsb f l.
Proof.
  induction l as [|x l IH]; [done|]. simpl.
  rewrite existsb_app, IH. simpl. rewrite orb_false_r. apply orb_comm.
Qed.

Lemma slice_shift (pre s : jsstring) a b :
  0 <= a ->
  JS.slice (pre ++ s) (a + JS.length pre) (b + JS.length pre) = JS.slice s a b.
Proof.
  intros Ha. unfold JS.slice, JS.length.
  replace (b + Z.of_nat (List.length pre) - (a + Z.of_nat (List.length pre)))
    with (b - a) by lia.
  replace (Z.to_nat (a + Z.of_nat (List.length pre)))
    with (List.length pre + Z.to_nat a)%nat by lia.
  by rewrite drop_app_add.
Qed.

(** The extension of a path is the extension of its last component: what
    comes before a slash does not count, as long as something other than
    slashes comes after it. *)
Lemma extname_under dir name :
  existsb not_slash name = true ->
  extname (dir ++ "/"%char :: name) = extname name.
Proof.
  intros Hname.
  set (k := JS.length (dir ++ [ "/"%char ])).
  assert (Hk : 0 <= k) by apply JS_length_nonneg.
  destruct (extname_loop_prefix k (rev dir) (rev name) (JS.length name - 1)
              ext_init ext_init) as [Hsh Hsp]; try done.
  - unfold JS.length. by rewrite length_rev.
  - split; [by left|]. split; [by left|]. done.
  - right. by rewrite existsb_rev.
  - assert (Hscan : extname_scan (dir ++ "/"%char :: name)
                    = extname_loop (rev name ++ "/"%char :: rev dir)
                        (JS.length name - 1 + k) ext_init).
    { unfold extname_scan. rewrite rev_app_distr. simpl rev.
      rewrite <- app_assoc. simpl app. f_equal. subst k. js_length. }
    unfold extname. rewrite Hscan. fold (extname_scan name) in Hsh, Hsp.
    set (r := extname_scan name) in *.
    set (r' := extname_loop _ _ _) in *.
    destruct Hsh as (H1 & H2 & H3 & H4).
    destruct (extname_scan_bounds name) as [He Hd]. fold r in He, Hd.
    unfold no_extension. rewrite H1, H2, H4, Hsp. unfold shift_index.
    destruct (Z.eqb_spec (startDot r) (-1)) as [Esd|Esd]; [done|].
    destruct (Z.eqb_spec (end_ r) (-1)) as [Ee|Ee]; [lia|].
    replace (startDot r + k =? -1) with false by lia.
    replace (end_ r + k =? -1) with false by lia.
    replace (startDot r + k =? end_ r + k - 1)
      with (startDot r =? end_ r - 1) by lia.
    replace (startDot r + k =? startPart r + k + 1)
      with (startDot r =? startPart r + 1) by lia.
    cbn [orb].
    destruct (_ || _); [done|].
    replace (dir ++ "/"%char :: name) with ((dir ++ [ "/"%char ]) ++ name)
      by (by rewrite <- app_assoc).
    apply slice_shift. lia.
Qed.

(** Characters that are neither slashes nor dots, read after the end of
    the name is known and before any dot is met, change nothing. *)
Lemma extname_loop_plain r :
  forall rest i st,
    Forall plain r -> startDot st = -1 -> end_ st <> -1 ->
    extname_loop (r ++ rest) i st
    = extname_loop rest (i - Z.of_nat (List.length r)) st.
Proof.
  induction r as [|c r IH]; intros rest i st Hr Hsd He; simpl.
  { f_equal. lia. }
  inversion Hr as [|? ? [Hs Hd] Hr']; subst. rewrite Hs, Hd.
  replace (end_ st =? -1) with false by lia.
  replace (startDot st =? -1) with true by lia. simpl.
  rewrite IH by done. f_equal. lia.
Qed.

Lemma extname_loop_plain_init r rest i :
  0 <= i -> Forall plain r -> r <> [] ->
  extname_loop (r ++ rest) i ext_init
  = extname_loop rest (i - Z.of_nat (List.length r))
      {| startDot := -1; startPart := 0; end_ := i + 1;
         matchedSlash := false; preDotState := 0 |}.
Proof.
  intros Hi Hr Hne. destruct r as [|c r]; [done|].
  inversion Hr as [|? ? [Hs Hd] Hr']; subst. simpl. rewrite Hs, Hd. simpl.
  rewrite extname_loop_plain by (done || simpl; lia). f_equal. lia.
Qed.

(** Once a dot is recorded and a character before it has been read, the
    scan keeps the dot and the end, and [preDotState] stays away from 0. *)
Lemma extname_loop_settled r :
  forall i st,
    startDot st <> -1 -> end_ st <> -1 -> matchedSlash st = false ->
    preDotState st <> 0 ->
    startDot (extname_loop r i st) = startDot st
    /\ end_ (extname_loop r i st) = end_ st
    /\ preDotState (extname_loop r i st) <> 0.
Proof.
  induction r as [|c r IH]; intros i st Hsd He Hm Hpd; simpl; [done|].
  rewrite Hm. simpl negb. destruct (is_slash c); [done|].
  replace (end_ st =? -1) with false by lia.
  replace (startDot st =? -1) with false by lia. simpl.
  destruct (is_dot c).
  - destruct (Z.eqb_spec (preDotState st) 1) as [E|E]; simpl.
    + by apply IH.
    + destruct (IH (i - 1)
                  {| startDot := startDot st; startPart := startPart st;
                     end_ := end_ st; matchedSlash := matchedSlash st;
                     preDotState := 1 |}) as (? & ? & ?); by simpl.
  - destruct (IH (i - 1)
                {| startDot := startDot st; startPart := startPart st;
                   end_ := end_ st; matchedSlash := matchedSlash st;
                   preDotState := -1 |}) as (? & ? & ?); by simpl.
Qed.

Lemma extname_loop_at_dot rest i sp e :
  e <> -1 ->
  extname_loop ("."%char :: rest) i
    {| startDot := -1; startPart := sp; end_ := e;
       matchedSlash := false; preDotState := 0 |}
  = extname_loop rest (i - 1)
      {| startDot := i; startPart := sp; end_ := e;
         matchedSlash := false; preDotState := 0 |}.
Proof.
  intros He. simpl. change (is_slash "."%char) with false.
  change (is_dot "."%char) with true. cbv iota.
  by replace (e =? -1) with false by lia.
Qed.

Lemma extname_loop_before_dot c rest i sd sp e :
  is_slash c = false -> sd <> -1 -> e <> -1 ->
  extname_loop (c :: rest) i
    {| startDot := sd; startPart := sp; end_ := e;
       matchedSlash := false; preDotState := 0 |}
  = extname_loop rest (i - 1)
      {| startDot := sd; startPart := sp; end_ := e;
         matchedSlash := false;
         preDotState := if is_dot c then 1 else -1 |}.
Proof.
  intros Hc Hsd He. simpl. rewrite Hc.
  replace (e =? -1) with false by lia. simpl.
  replace (sd =? -1) with false by lia. simpl.
  by destruct (is_dot c).
Qed.

(** A dot followed by characters that are neither dots nor slashes, after
    a character that is not a slash, is the extension. *)
Lemma extname_suffix w c e :
  is_slash c = false -> e <> [] -> Forall plain e ->
  extname (w ++ c :: "."%char :: e) = "."%char :: e.
Proof.
  intros Hc Hne He.
  set (path := w ++ c :: "."%char :: e).
  assert (Hlen : JS.length path = JS.length w + 2 + JS.length e).
  { subst path. js_length. }
  assert (Hrev : rev path = rev e ++ "."%char :: c :: rev w).
  { subst path. rewrite rev_app_distr. simpl. by rewrite <- !app_assoc. }
  assert (He' : 1 <= JS.length e).
  { destruct e; [done|]. rewrite JS_length_cons.
    pose proof (JS_length_nonneg e). lia. }
  pose proof (JS_length_nonneg w) as Hw.
  unfold extname, extname_scan. rewrite Hrev.
  rewrite extname_loop_plain_init;
    [|lia|by apply Forall_rev|by intros E%(f_equal (@List.length _));
                              rewrite length_rev in E; destruct e].
  rewrite length_rev.
  replace (JS.length path - 1 - Z.of_nat (List.length e))
    with (JS.length w + 1) by (unfold JS.length in *; lia).
  replace (JS.length path - 1 + 1) with (JS.length path) by lia.
  rewrite extname_loop_at_dot by lia.
  rewrite extname_loop_before_dot by (done || lia).
  match goal with
  | |- context [extname_loop (rev w) ?j ?st] =>
      destruct (extname_loop_settled (rev w) j st) as (R1 & R2 & R3);
        [simpl; lia | simpl; lia | done | by simpl; destruct (is_dot c) |];
      set (r := extname_loop (rev w) j st) in *
  end.
  simpl in R1, R2.
  unfold no_extension. rewrite R1, R2.
  replace (JS.length w + 1 =? -1) with false by lia.
  replace (JS.length path =? -1) with false by lia.
  replace (preDotState r =? 0) with false by lia.
  replace (JS.length w + 1 =? JS.length path - 1) with false by lia.
  rewrite andb_false_r. simpl.
  subst path.
  replace (w ++ c :: "."%char :: e)
    with ((w ++ [c]) ++ ("."%char :: e) ++ []).
  2:{ rewrite app_nil_r. by rewrite <- app_assoc. }
  apply slice_middle; js_length.
Qed.

End ExtnameMore.

(** * Further properties of [sanitizePath] *)

Section SanitizeMore.
Import NodePath.

(** The sanitized path, exactly: the clean segments joined, and one slash
    after them when there are some and the request path ends with one. *)
Lemma sanitizePath_exact p :
  sanitizePath p
  = join_slash (clean_segments p)
    ++ (if decide (clean_segments p = []) then []
        else if trailingSeparator ("/"%char :: p) then [ "/"%char ] else []).
Proof.
  rewrite sanitizePath_unguarded. unfold normalize.
  rewrite normalizeString_segments. simpl isAbsolute. simpl negb.
  change (split_slash ("/"%char :: p)) with ([] :: split_slash p).
  rewrite normalize_segments_cons_empty. fold (clean_segments p).
  pose proof (clean_segments_proper p) as HP.
  pose proof (clean_segments_no_slash p) as HS.
  destruct (decide (clean_segments p = [])) as [E|E].
  - by rewrite E.
  - destruct (join_slash_starts _ E HP HS) as (c & w & -> & Hc).
    destruct (trailingSeparator _); simpl; by rewrite Hc, ?app_nil_r.
Qed.

Lemma proper_segment_proper seg : proper_segment seg = true -> proper seg.
Proof.
  unfold proper_segment, jsstring_eqb. intros H.
  apply andb_true_iff in H as [H H3]. apply andb_true_iff in H as [H1 H2].
  repeat split; intros E; [rewrite bool_decide_eq_true_2 in H1
                          |rewrite bool_decide_eq_true_2 in H2
                          |rewrite bool_decide_eq_true_2 in H3]; done.
Qed.

Lemma not_slash_no_slash seg : forallb not_slash seg = true -> no_slash seg.
Proof.
  intros H. apply List.Forall_forall. intros c Hc.
  rewrite forallb_forall in H. specialize (H c Hc).
  unfold not_slash in H. by destruct (is_slash c).
Qed.

Lemma without_final_slash_snoc_slash s :
  without_final_slash (s ++ [ "/"%char ]) = s.
Proof.
  unfold without_final_slash. rewrite rev_unit.
  change (is_slash "/"%char) with true. cbv iota. apply rev_involutive.
Qed.

Lemma without_final_slash_snoc w c :
  is_slash c = false -> without_final_slash (w ++ [c]) = w ++ [c].
Proof. intros Hc. unfold without_final_slash. by rewrite rev_unit, Hc. Qed.

(** A relative path in normal form is left as it is. *)
Lemma sanitizePath_relative_normal c :
  relative_normal c -> sanitizePath c = c.
Proof.
  intros (C & Hne & HP & HS & ->). rewrite sanitizePath_exact.
  assert (E : clean_segments (join_slash C) = C).
  { unfold clean_segments. rewrite split_join by done.
    by apply normalize_segments_proper. }
  rewrite E. destruct (decide (C = [])); [done|].
  replace (trailingSeparator ("/"%char :: join_slash C)) with false.
  - by rewrite app_nil_r.
  - symmetry. by apply (trailingSeparator_join [ "/"%char ]).
Qed.

(** X1. [sanitizePath] is idempotent: sanitizing a sanitized path gives it
    back. *)
Theorem sanitizePath_idempotent p :
  sanitizePath (sanitizePath p) = sanitizePath p.
Proof.
  rewrite (sanitizePath_exact (sanitizePath p)), clean_segments_sanitized.
  etransitivity; [|symmetry; apply sanitizePath_exact].
  pose proof (clean_segments_proper p) as HP.
  pose proof (clean_segments_no_slash p) as HS.
  destruct (decide (clean_segments p = [])) as [E|E]; [done|].
  f_equal. rewrite (sanitizePath_exact p).
  destruct (decide (clean_segments p = [])) as [|_]; [done|].
  destruct (trailingSeparator ("/"%char :: p)).
  - change ("/"%char :: join_slash (clean_segments p) ++ [ "/"%char ])
      with (("/"%char :: join_slash (clean_segments p)) ++ [ "/"%char ]).
    by rewrite trailingSeparator_snoc.
  - rewrite app_nil_r.
    change ("/"%char :: join_slash (clean_segments p))
      with ([ "/"%char ] ++ join_slash (clean_segments p)).
    by rewrite trailingSeparator_join.
Qed.

(** X2. The guard of [sanitizePath] is dead code: whatever the raw path, the
    normalization of ["/" + rawPath] without its leading slashes neither
    starts with ["../"] nor is [".."], so the function returns that
    normalization. *)
Theorem sanitizePath_guard_never_fires rawPath :
  let normalized :=
    JS.strip_leading_slashes (NodePath.normalize (str "/" ++ rawPath)) in
  JS.startsWith normalized (str "../") = false
  /\ jsstring_eqb normalized (str "..") = false
  /\ sanitizePath rawPath = normalized.
Proof.
  cbv zeta. change (str "/" ++ rawPath) with ("/"%char :: rawPath).
  pose proof (sanitizePath_unguarded rawPath) as E.
  set (n := JS.strip_leading_slashes _) in *.
  split; [|split]; [| |exact E].
  - destruct (JS.startsWith n (str "../")) eqn:G; [|done].
    unfold sanitizePath in E. cbv zeta in E. fold n in E. rewrite G in E.
    simpl in E. by rewrite <- E in G.
  - destruct (jsstring_eqb n (str "..")) eqn:G; [|done].
    unfold sanitizePath in E. cbv zeta in E. fold n in E. rewrite G in E.
    rewrite orb_true_r in E. by rewrite <- E in G.
Qed.

(** X3. A sanitized path is empty, or a sequence of proper segments
    (non-empty, not ["."], not [".."]) separated by single slashes, with at
    most one slash at the end and none at the start. *)
Theorem sanitizePath_shape_ok p : sanitized_shape (sanitizePath p) = true.
Proof.
  rewrite sanitizePath_exact. unfold sanitized_shape.
  pose proof (clean_segments_proper p) as HP.
  pose proof (clean_segments_no_slash p) as HS.
  destruct (decide (clean_segments p = [])) as [E|E]; [by rewrite E|].
  apply orb_true_iff. right.
  destruct (join_slash_ends _ E HP HS) as (w & c & Ej & Hc).
  assert (Hw : without_final_slash
                 (join_slash (clean_segments p)
                  ++ (if trailingSeparator ("/"%char :: p)
                      then [ "/"%char ] else []))
               = join_slash (clean_segments p)).
  { destruct (trailingSeparator _).
    - apply without_final_slash_snoc_slash.
    - rewrite app_nil_r, Ej. by apply without_final_slash_snoc. }
  rewrite Hw, split_join by done.
  apply forallb_forall. intros seg Hseg. apply proper_segment_true.
  by eapply List.Forall_forall in HP.
Qed.

End SanitizeMore.

(** * Further properties of the resolver *)

Section ResolverMore.
Import NodePath.

Lemma clean_segments_leading_slash p :
  clean_segments ("/"%char :: p) = clean_segments p.
Proof.
  unfold clean_segments.
  change (split_slash ("/"%char :: p)) with ([] :: split_slash p).
  apply normalize_segments_cons_empty.
Qed.

Lemma normalize_segments_app_step a A x B :
  (forall stack, normalize_step a stack x = stack) ->
  normalize_segments a (A ++ x :: B) = normalize_segments a (A ++ B).
Proof.
  intros H. unfold normalize_segments.
  rewrite !fold_left_app. simpl. by rewrite H.
Qed.

Lemma clean_segments_double_slash a b :
  clean_segments (a ++ "/"%char :: "/"%char :: b)
  = clean_segments (a ++ "/"%char :: b).
Proof.
  unfold clean_segments. rewrite !split_slash_app.
  change (split_slash ("/"%char :: b)) with ([] :: split_slash b).
  by apply normalize_segments_app_step.
Qed.

Lemma clean_segments_dot_segment a b :
  clean_segments (a ++ "/"%char :: "."%char :: "/"%char :: b)
  = clean_segments (a ++ "/"%char :: b).
Proof.
  unfold clean_segments.
  rewrite (split_slash_app a ("."%char :: "/"%char :: b)).
  change ("."%char :: "/"%char :: b) with ([ "."%char ] ++ "/"%char :: b).
  rewrite (split_slash_app [ "."%char ] b), (split_slash_app a b).
  change (split_slash [ "."%char ]) with [[ "."%char ]].
  by apply normalize_segments_app_step.
Qed.

Lemma normalize_step_cancel a stack x :
  proper x ->
  normalize_step a (normalize_step a stack x) dotdot = stack.
Proof.
  intros Hx. rewrite (normalize_step_proper _ _ _ Hx).
  destruct Hx as (H1 & H2 & H3).
  unfold normalize_step at 1. unfold jsstring_eqb.
  rewrite (bool_decide_eq_false_2 (x = dotdot)) by done.
  by vm_compute.
Qed.

Lemma clean_segments_cancel a x b :
  proper x -> no_slash x ->
  clean_segments (a ++ "/"%char :: x ++ str "/../" ++ b)
  = clean_segments (a ++ "/"%char :: b).
Proof.
  intros Hx Hs. unfold clean_segments.
  rewrite (split_slash_app a (x ++ str "/../" ++ b)).
  change (x ++ str "/../" ++ b) with (x ++ "/"%char :: str "../" ++ b).
  rewrite (split_slash_app x (str "../" ++ b)).
  change (str "../" ++ b) with (str ".." ++ "/"%char :: b).
  rewrite (split_slash_app (str "..") b), (split_slash_app a b).
  rewrite (split_slash_no_slash x) by done.
  change (split_slash (str "..")) with [dotdot].
  unfold normalize_segments. rewrite !fold_left_app. simpl.
  by rewrite normalize_step_cancel.
Qed.

Lemma serveFile_segments cwd fs p q headOnly :
  clean_segments p = clean_segments q ->
  serveFile cwd fs p headOnly = serveFile cwd fs q headOnly.
Proof.
  intros E. unfold serveFile. by rewrite (resolve_segments cwd fs p q E).
Qed.

Lemma find_none_iff {A} (f : A -> bool) l :
  List.find f l = None <-> forall x, In x l -> f x = false.
Proof.
  split; [apply List.find_none|].
  intros H. destruct (List.find f l) as [x|] eqn:E; [|done].
  apply List.find_some in E as [Hin Hx]. by rewrite (H x Hin) in Hx.
Qed.

Lemma fallback_clean N :
  Forall proper N -> Forall no_slash N ->
  fallback (join_slash N)
  = if decide (N = []) then [str "index.html"]
    else join_slash N
         :: (if jsstring_eqb (extname (join_slash N)) []
             then [join_slash N ++ str ".html";
                   join_slash N ++ str "/index.html"]
             else []).
Proof.
  intros HP HS. unfold fallback.
  destruct (decide (N = [])) as [->|E]; [done|].
  destruct (join_slash_starts N E HP HS) as (c & w & -> & Hc).
  replace (jsstring_eqb (c :: w) [] || jsstring_eqb (c :: w) (str "/"))
    with false; [done|].
  symmetry. apply orb_false_iff. unfold jsstring_eqb.
  split; apply bool_decide_eq_false_2; [done|].
  intros [= -> _]. done.
Qed.

(** X4. The resolver ignores a leading slash, repeated slashes and ["."]
    segments of the request path. *)
Theorem resolve_ignores_redundant_separators cwd fs :
  (forall p,
     resolveSnapshotFile cwd fs (str "/" ++ p) = resolveSnapshotFile cwd fs p)
  /\ (forall a b,
        resolveSnapshotFile cwd fs (a ++ str "//" ++ b)
        = resolveSnapshotFile cwd fs (a ++ str "/" ++ b))
  /\ (forall a b,
        resolveSnapshotFile cwd fs (a ++ str "/./" ++ b)
        = resolveSnapshotFile cwd fs (a ++ str "/" ++ b)).
Proof.
  split; [|split]; intros; apply resolve_segments.
  - apply clean_segments_leading_slash.
  - apply clean_segments_double_slash.
  - apply clean_segments_dot_segment.
Qed.

(** X5. A proper segment followed by [".."] cancels: for a segment [x] that
    is non-empty, not ["."], not [".."] and holds no slash, the request
    [a/x/../b] resolves as [a/b] does. *)
Theorem resolve_parent_cancels cwd fs a x b :
  proper_segment x = true -> forallb not_slash x = true ->
  resolveSnapshotFile cwd fs (a ++ str "/" ++ x ++ str "/../" ++ b)
  = resolveSnapshotFile cwd fs (a ++ str "/" ++ b).
Proof.
  intros Hx Hs. apply resolve_segments.
  apply clean_segments_cancel.
  - by apply proper_segment_proper.
  - by apply not_slash_no_slash.
Qed.

Lemma resolve_parent_cancels_witness :
  resolveSnapshotFile demo_cwd demo_fs
    (str "a" ++ str "/" ++ str "zz" ++ str "/../" ++ str "b")
  = resolveSnapshotFile demo_cwd demo_fs (str "a" ++ str "/" ++ str "b").
Proof.
  apply (resolve_parent_cancels demo_cwd demo_fs (str "a") (str "zz") (str "b"));
    reflexivity.
Defined.

(** X6. The containment test of the loop never rejects a candidate: for
    every candidate of every request path, [path.join(SNAPSHOT_ROOT,
    candidate)] is the root, a slash and the candidate, and it starts with
    the root. *)
Theorem candidate_never_rejected cwd p c :
  In c (candidates_of p) ->
  join [SNAPSHOT_ROOT cwd; c] = SNAPSHOT_ROOT cwd ++ str "/" ++ c
  /\ JS.startsWith (join [SNAPSHOT_ROOT cwd; c]) (SNAPSHOT_ROOT cwd) = true.
Proof.
  intros Hin.
  pose proof (candidates_relative_normal p) as H.
  eapply List.Forall_forall in H; [|exact Hin].
  rewrite (join_root cwd c H). split; [done|]. apply startsWith_app.
Qed.

Lemma candidate_never_rejected_witness :
  join [SNAPSHOT_ROOT demo_cwd; str "a/b.html"]
  = SNAPSHOT_ROOT demo_cwd ++ str "/" ++ str "a/b.html"
  /\ JS.startsWith (join [SNAPSHOT_ROOT demo_cwd; str "a/b.html"])
       (SNAPSHOT_ROOT demo_cwd) = true.
Proof.
  apply (candidate_never_rejected demo_cwd (str "a/b") (str "a/b.html")).
  vm_compute. right. left. reflexivity.
Defined.

(** X7. The candidates of a request path are pairwise distinct, and there
    are three of them when the trimmed sanitized path is non-empty and has
    no extension, and one otherwise. *)
Theorem candidates_distinct p :
  NoDup (candidates_of p)
  /\ List.length (candidates_of p)
     = if jsstring_eqb (JS.strip_trailing_slashes (sanitizePath p)) []
          || negb (jsstring_eqb (extname (sanitizePath p)) [])
       then 1%nat else 3%nat.
Proof.
  rewrite candidates_of_segments, extname_clean, trimmed_clean.
  pose proof (clean_segments_proper p) as HP.
  pose proof (clean_segments_no_slash p) as HS.
  rewrite fallback_clean by done.
  destruct (decide (clean_segments p = [])) as [E|E].
  - rewrite E. split; [|done]. apply NoDup_singleton.
  - destruct (join_slash_starts _ E HP HS) as (c & w & Ej & Hc).
    rewrite Ej.
    replace (jsstring_eqb (c :: w) []) with false
      by (symmetry; by apply bool_decide_eq_false_2).
    destruct (jsstring_eqb (extname (c :: w)) []); simpl.
    + split; [|done].
      apply NoDup_cons. split.
      { rewrite !elem_of_cons, elem_of_nil. intros [H|[H|[]]].
        - symmetry in H. by apply (app_neq_self (c :: w)) in H.
        - symmetry in H. by apply (app_neq_self (c :: w)) in H. }
      apply NoDup_cons. split; [|apply NoDup_singleton].
      rewrite elem_of_cons, elem_of_nil. intros [H|[]].
      injection H as H. by apply app_inv_head in H.
    + split; [apply NoDup_singleton|done].
Qed.

(** X8. A request whose sanitized path has a file extension has a single
    candidate: it resolves to the trimmed sanitized path under the root
    when that is a regular file, and to [null] otherwise; [".html"] and
    ["/index.html"] are not tried. *)
Theorem resolve_with_extension cwd fs p :
  extname (sanitizePath p) <> [] ->
  resolveSnapshotFile cwd fs p
  = let file :=
      SNAPSHOT_ROOT cwd ++ str "/"
      ++ JS.strip_trailing_slashes (sanitizePath p) in
    if exists_ fs file then Some file else None.
Proof.
  intros Hext. rewrite resolve_fallback. rewrite trimmed_clean.
  rewrite extname_clean in Hext.
  pose proof (clean_segments_proper p) as HP.
  pose proof (clean_segments_no_slash p) as HS.
  rewrite fallback_clean by done.
  destruct (decide (clean_segments p = [])) as [E|E].
  - by rewrite E in Hext.
  - replace (jsstring_eqb (extname (join_slash (clean_segments p))) [])
      with false by (symmetry; by apply bool_decide_eq_false_2).
    simpl. unfold under_root. simpl. by destruct (exists_ fs _).
Qed.

Lemma resolve_with_extension_witness :
  resolveSnapshotFile demo_cwd demo_fs (str "a/b.html/")
  = let file :=
      SNAPSHOT_ROOT demo_cwd ++ str "/"
      ++ JS.strip_trailing_slashes (sanitizePath (str "a/b.html/")) in
    if exists_ demo_fs file then Some file else None.
Proof.
  apply (resolve_with_extension demo_cwd demo_fs (str "a/b.html/")).
  vm_compute. discriminate.
Defined.

(** X9. The resolver returns [null] exactly when no candidate of the request
    path is a regular file under the root. *)
Theorem resolve_none_iff cwd fs p :
  resolveSnapshotFile cwd fs p = None
  <-> forall c, In c (candidates_of p) ->
                exists_ fs (SNAPSHOT_ROOT cwd ++ str "/" ++ c) = false.
Proof.
  rewrite resolve_fallback, <- candidates_of_fallback, find_none_iff.
  split.
  - intros H c Hc. apply H. apply in_map_iff. by exists c.
  - intros H x Hx. apply in_map_iff in Hx as (c & <- & Hc). by apply H.
Qed.

(** X10. A resolved path is a candidate of the request path placed under
    the root, and it names a regular file: the resolver never returns a
    directory or a missing path. *)
Theorem resolve_regular_file cwd fs p file :
  resolveSnapshotFile cwd fs p = Some file ->
  (exists c, In c (candidates_of p)
             /\ file = SNAPSHOT_ROOT cwd ++ str "/" ++ c)
  /\ exists content, fs_entry fs file = Some (File content).
Proof.
  intros H. destruct (resolve_some _ _ _ _ H) as (c & Hin & _ & -> & Hex).
  split; [by exists c|]. by apply exists_is_file.
Qed.

Lemma resolve_regular_file_witness :
  (exists c, In c (candidates_of (str "a/b"))
             /\ str "/srv/site/reference/www.anthropic.com/a/b.html"
                = SNAPSHOT_ROOT demo_cwd ++ str "/" ++ c)
  /\ exists content,
       fs_entry demo_fs (str "/srv/site/reference/www.anthropic.com/a/b.html")
       = Some (File content).
Proof.
  apply (resolve_regular_file demo_cwd demo_fs (str "a/b")).
  vm_compute. reflexivity.
Defined.

(** X11. Resolution is stable: a resolved path is the root, a slash and a
    relative path [c], and requesting [c] itself resolves to the same
    file. *)
Theorem resolve_round_trip cwd fs p file :
  resolveSnapshotFile cwd fs p = Some file ->
  exists c, file = SNAPSHOT_ROOT cwd ++ str "/" ++ c
            /\ resolveSnapshotFile cwd fs c = Some file.
Proof.
  intros H. destruct (resolve_some _ _ _ _ H) as (c & Hin & Hc & -> & Hex).
  exists c. split; [done|].
  rewrite resolve_fallback, (sanitizePath_relative_normal c Hc).
  destruct Hc as (C & Hne & HP & HS & ->).
  destruct (join_slash_ends C Hne HP HS) as (w & x & Ej & Hx).
  rewrite Ej, strip_trailing_slashes_snoc by done. rewrite <- Ej.
  rewrite fallback_clean by done.
  destruct (decide (C = [])); [done|].
  simpl. by rewrite Hex.
Qed.

Lemma resolve_round_trip_witness :
  exists c, str "/srv/site/reference/www.anthropic.com/a/b.html"
            = SNAPSHOT_ROOT demo_cwd ++ str "/" ++ c
            /\ resolveSnapshotFile demo_cwd demo_fs c
               = Some (str "/srv/site/reference/www.anthropic.com/a/b.html").
Proof.
  apply (resolve_round_trip demo_cwd demo_fs (str "a/b")).
  vm_compute. reflexivity.
Defined.

End ResolverMore.

(** * Further properties of the handlers *)

Section HandlersMore.
Import NodePath.

Lemma getRequestPath_prefixed s :
  getRequestPath (route_prefix ++ s)
  = match s with
    | c :: rest => if is_slash c then rest else s
    | [] => []
    end.
Proof.
  unfold getRequestPath, strip_route_prefix. cbv zeta.
  fold route_prefix. rewrite startsWith_app.
  rewrite drop_app_length. by destruct s.
Qed.

Lemma find_agree {A} (f g : A -> bool) l :
  (forall x, In x l -> f x = g x) -> List.find f l = List.find g l.
Proof.
  induction l as [|x l IH]; intros H; simpl; [done|].
  rewrite (H x) by (by left). rewrite IH; [done|].
  intros y Hy. apply H. by right.
Qed.

Lemma resolve_agree cwd fs1 fs2 p :
  (forall c, In c (candidates_of p) ->
     exists_ fs1 (SNAPSHOT_ROOT cwd ++ str "/" ++ c)
     = exists_ fs2 (SNAPSHOT_ROOT cwd ++ str "/" ++ c)) ->
  resolveSnapshotFile cwd fs1 p = resolveSnapshotFile cwd fs2 p.
Proof.
  intros H. rewrite !resolve_fallback, <- candidates_of_fallback.
  apply find_agree. intros x Hx.
  apply in_map_iff in Hx as (c & <- & Hc). by apply H.
Qed.

(** X12. The handlers see the request path behind the route prefix: for a
    pathname made of ["/www.anthropic.com"] and any rest, GET and HEAD serve
    the rest (the one slash that [getRequestPath] removes after the prefix
    makes no difference, and the prefix is matched as text, whatever follows
    it); a pathname that does not start with the prefix is served as it
    is. *)
Theorem handlers_strip_route_prefix cwd fs :
  (forall rest,
     GET cwd fs (route_prefix ++ rest) = serveFile cwd fs rest false
     /\ HEAD cwd fs (route_prefix ++ rest) = serveFile cwd fs rest true)
  /\ (forall pathname,
        JS.startsWith pathname route_prefix = false ->
        GET cwd fs pathname = serveFile cwd fs pathname false
        /\ HEAD cwd fs pathname = serveFile cwd fs pathname true).
Proof.
  split.
  - intros rest. unfold GET, HEAD. rewrite getRequestPath_prefixed.
    destruct rest as [|c rest]; [done|].
    destruct (is_slash c) eqn:Hc; [|done].
    apply is_slash_true in Hc as ->.
    split; apply serveFile_segments; symmetry;
      apply clean_segments_leading_slash.
  - intros pathname H. unfold GET, HEAD, getRequestPath, strip_route_prefix.
    cbv zeta. fold route_prefix. by rewrite H.
Qed.

(** X13. HEAD reads no file: its response depends on the file system only
    through which candidate locations of the request are regular files, so
    two file systems that agree there (whatever the files hold) get the
    same HEAD response. *)
Theorem HEAD_ignores_contents cwd fs1 fs2 pathname :
  (forall c, In c (candidates_of (getRequestPath pathname)) ->
     exists_ fs1 (SNAPSHOT_ROOT cwd ++ str "/" ++ c)
     = exists_ fs2 (SNAPSHOT_ROOT cwd ++ str "/" ++ c)) ->
  HEAD cwd fs1 pathname = HEAD cwd fs2 pathname.
Proof.
  intros H. unfold HEAD, serveFile.
  by rewrite (resolve_agree cwd fs1 fs2 _ H).
Qed.

Lemma HEAD_ignores_contents_witness :
  HEAD demo_cwd demo_fs (str "/www.anthropic.com/a/b")
  = HEAD demo_cwd other_fs (str "/www.anthropic.com/a/b").
Proof.
  apply (HEAD_ignores_contents demo_cwd demo_fs other_fs
           (str "/www.anthropic.com/a/b")).
  intros c Hc. vm_compute in Hc.
  destruct Hc as [<- | [<- | [<- | []]]]; vm_compute; reflexivity.
Defined.

End HandlersMore.

Lemma handlers_strip_route_prefix_witness :
  GET demo_cwd demo_fs (str "/a/b")
  = serveFile demo_cwd demo_fs (str "/a/b") false
  /\ HEAD demo_cwd demo_fs (str "/a/b")
     = serveFile demo_cwd demo_fs (str "/a/b") true.
Proof.
  apply (proj2 (handlers_strip_route_prefix demo_cwd demo_fs) (str "/a/b")).
  reflexivity.
Defined.

(** * Further properties of the content type *)

Section ContentTypeMore.
Import NodePath.

(** A name without dots has no extension. *)
Lemma extname_plain e : Forall plain e -> extname e = [].
Proof.
  intros He. destruct (decide (e = [])) as [->|Hne]; [done|].
  unfold extname, extname_scan.
  assert (He' : 1 <= JS.length e).
  { destruct e; [done|]. rewrite JS_length_cons.
    pose proof (JS_length_nonneg e). lia. }
  rewrite <- (app_nil_r (rev e)).
  rewrite extname_loop_plain_init;
    [|lia|by apply Forall_rev|by intros E%(f_equal (@List.length _));
                              rewrite length_rev in E; destruct e].
  done.
Qed.

(** A name whose only dot is its first character has no extension. *)
Lemma extname_dotfile e : Forall plain e -> extname ("."%char :: e) = [].
Proof.
  intros He. destruct (decide (e = [])) as [->|Hne]; [done|].
  unfold extname, extname_scan.
  assert (He' : 1 <= JS.length e).
  { destruct e; [done|]. rewrite JS_length_cons.
    pose proof (JS_length_nonneg e). lia. }
  rewrite JS_length_cons. simpl rev.
  rewrite extname_loop_plain_init;
    [|lia|by apply Forall_rev|by intros E%(f_equal (@List.length _));
                              rewrite length_rev in E; destruct e].
  rewrite extname_loop_at_dot by lia. simpl extname_loop.
  unfold no_extension. simpl. by rewrite !orb_true_r.
Qed.

Lemma getMimeType_under dir name :
  existsb not_slash name = true ->
  getMimeType (dir ++ "/"%char :: name) = getMimeType name.
Proof. intros H. unfold getMimeType. by rewrite extname_under. Qed.

Lemma getMimeType_table w c ext type :
  MIME_BY_EXT !! ext = Some type -> is_slash c = false ->
  getMimeType (w ++ c :: ext) = type.
Proof.
  intros H Hc.
  assert (Hext : extname (w ++ c :: ext) = ext).
  { pose proof H as H'. apply elem_of_list_to_map_2 in H'.
    repeat (apply elem_of_cons in H' as [H'|H'];
            [injection H' as -> ->;
             apply extname_suffix; [done|done|by repeat constructor]|]).
    by apply elem_of_nil in H'. }
  unfold getMimeType.
  by rewrite Hext, (MIME_keys_lowercase _ _ H), H.
Qed.

Lemma getMimeType_html w c :
  is_slash c = false ->
  getMimeType (w ++ c :: str ".html") = str "text/html; charset=utf-8".
Proof. intros Hc. by apply getMimeType_table. Qed.

(** X14. The content type depends on the last component of the path only:
    for a name that holds a character other than a slash, the directory it
    lies in (dots in directory names included) makes no difference. *)
Theorem getMimeType_last_component dir name :
  existsb not_slash name = true ->
  getMimeType (dir ++ str "/" ++ name) = getMimeType name.
Proof. apply getMimeType_under. Qed.

Lemma getMimeType_last_component_witness :
  getMimeType (str "/srv/site.v2/assets" ++ str "/" ++ str "logo.PNG")
  = getMimeType (str "logo.PNG").
Proof.
  apply (getMimeType_last_component (str "/srv/site.v2/assets")
           (str "logo.PNG")).
  reflexivity.
Defined.

(** X15. Every entry of the table is in effect: a path that ends in a
    character other than a slash followed by an extension of the table has
    the content type the table gives for that extension. *)
Theorem table_entry_effective w c ext type :
  MIME_BY_EXT !! ext = Some type -> is_slash c = false ->
  getMimeType (w ++ c :: ext) = type.
Proof. apply getMimeType_table. Qed.

Lemma table_entry_effective_witness :
  getMimeType (str "/srv/fonts/" ++ "a"%char :: str ".woff2")
  = str "font/woff2".
Proof.
  apply (table_entry_effective (str "/srv/fonts/") "a"%char (str ".woff2")
           (str "font/woff2")); reflexivity.
Defined.

(** X16. A file whose name holds no dot, or no dot but its first character,
    has no extension and is served as [application/octet-stream], in
    whatever directory: so is a file named [.html]. *)
Theorem dotless_name_octet_stream dir e :
  e <> [] -> Forall plain e ->
  getMimeType (dir ++ str "/" ++ e) = str "application/octet-stream"
  /\ getMimeType (dir ++ str "/." ++ e) = str "application/octet-stream".
Proof.
  intros Hne He.
  assert (Hex : existsb not_slash e = true).
  { destruct e as [|c e]; [done|]. inversion He as [|? ? [Hs _] _]; subst.
    simpl. unfold not_slash. by rewrite Hs. }
  split.
  - change (dir ++ str "/" ++ e) with (dir ++ "/"%char :: e).
    rewrite getMimeType_under by done.
    unfold getMimeType. by rewrite extname_plain.
  - change (dir ++ str "/." ++ e) with (dir ++ "/"%char :: "."%char :: e).
    rewrite getMimeType_under by done.
    unfold getMimeType. by rewrite extname_dotfile.
Qed.

Lemma dotless_name_octet_stream_witness :
  getMimeType (str "/srv/site" ++ str "/" ++ str "html")
  = str "application/octet-stream"
  /\ getMimeType (str "/srv/site" ++ str "/." ++ str "html")
     = str "application/octet-stream".
Proof.
  apply (dotless_name_octet_stream (str "/srv/site") (str "html"));
    [discriminate|].
  repeat constructor.
Defined.

(** X17. For a request whose sanitized path has no extension, the content
    type tells which candidate answered: the path itself is served as
    [application/octet-stream], and the [".html"] and ["/index.html"]
    fallbacks (the root's [index.html] included) as
    [text/html; charset=utf-8]. *)
Theorem extensionless_content_type cwd fs p file :
  extname (sanitizePath p) = [] ->
  resolveSnapshotFile cwd fs p = Some file ->
  getMimeType file
  = if jsstring_eqb file
         (SNAPSHOT_ROOT cwd ++ str "/"
          ++ JS.strip_trailing_slashes (sanitizePath p))
    then str "application/octet-stream"
    else str "text/html; charset=utf-8".
Proof.
  intros Hext H.
  pose proof (clean_segments_proper p) as HP.
  pose proof (clean_segments_no_slash p) as HS.
  rewrite resolve_fallback, trimmed_clean in H. rewrite trimmed_clean.
  rewrite extname_clean in Hext.
  rewrite fallback_clean in H by done.
  set (root := SNAPSHOT_ROOT cwd) in *.
  destruct (decide (clean_segments p = [])) as [E|E].
  - rewrite E. simpl in H. unfold under_root in H.
    destruct (exists_ fs _); [|done]. injection H as <-.
    unfold jsstring_eqb. rewrite bool_decide_eq_false_2.
    2:{ intros Heq%app_inv_head. discriminate. }
    etransitivity;
      [|by apply (getMimeType_html (root ++ str "/inde") "x"%char)].
    f_equal. by rewrite <- app_assoc.
  - destruct (join_slash_starts _ E HP HS) as (c & w & Ec & Hc).
    destruct (join_slash_ends _ E HP HS) as (v & x & Ex & Hx).
    set (t := join_slash (clean_segments p)) in *.
    rewrite Hext in H. simpl in H. unfold under_root in H.
    change (root ++ str "/" ++ t) with (root ++ "/"%char :: t).
    destruct (exists_ fs (root ++ "/"%char :: t)).
    { injection H as <-. unfold jsstring_eqb.
      rewrite bool_decide_eq_true_2 by done.
      rewrite getMimeType_under.
      - unfold getMimeType. by rewrite Hext.
      - rewrite Ec. simpl. unfold not_slash. by rewrite Hc. }
    assert (Hne : forall s, s <> [] ->
              jsstring_eqb (root ++ "/"%char :: t ++ s)
                (root ++ "/"%char :: t) = false).
    { intros s Hs. apply bool_decide_eq_false_2.
      intros Heq%app_inv_head. injection Heq as Heq.
      by apply app_neq_self in Heq. }
    destruct (exists_ fs (root ++ "/"%char :: t ++ _)).
    { injection H as <-. rewrite Hne by done.
      etransitivity;
        [|by apply (getMimeType_html (root ++ "/"%char :: v) x)].
      f_equal. rewrite Ex. by rewrite <- !app_assoc. }
    destruct (exists_ fs (root ++ "/"%char :: t ++ _)); [|done].
    injection H as <-. rewrite Hne by done.
    etransitivity;
      [|by apply (getMimeType_html ((root ++ "/"%char :: t) ++ str "/inde")
                    "x"%char)].
    f_equal. by rewrite <- !app_assoc.
Qed.

Lemma extensionless_content_type_witness :
  getMimeType (str "/srv/site/reference/www.anthropic.com/a/b.html")
  = if jsstring_eqb (str "/srv/site/reference/www.anthropic.com/a/b.html")
         (SNAPSHOT_ROOT demo_cwd ++ str "/"
          ++ JS.strip_trailing_slashes (sanitizePath (str "a/b")))
    then str "application/octet-stream"
    else str "text/html; charset=utf-8".
Proof.
  apply (extensionless_content_type demo_cwd demo_fs (str "a/b"));
    vm_compute; reflexivity.
Defined.

End ContentTypeMore.

(** * The mirror root *)

Section RootMore.
Import NodePath.

(** X18. For a working directory that is an absolute path in normal form, as
    [process.cwd()] is, the mirror root is that directory followed by
    ["/reference/www.anthropic.com"]; for the root directory ["/"] it is
    ["/reference/www.anthropic.com"], without a second slash. *)
Theorem SNAPSHOT_ROOT_of_normal_cwd S :
  Forall proper S -> Forall no_slash S ->
  SNAPSHOT_ROOT (str "/" ++ join_slash S)
  = if decide (S = []) then str "/reference/www.anthropic.com"
    else str "/" ++ join_slash S ++ str "/reference/www.anthropic.com".
Proof.
  intros HP HS. rewrite SNAPSHOT_ROOT_shape.
  change (isAbsolute (str "/" ++ join_slash S)) with true. cbv iota.
  unfold root_segments.
  change (isAbsolute (str "/" ++ join_slash S)) with true.
  change (split_slash (str "/" ++ join_slash S))
    with ([] :: split_slash (join_slash S)).
  rewrite normalize_segments_cons_empty.
  destruct (decide (S = [])) as [->|Hne]; [done|].
  rewrite split_join by done.
  rewrite normalize_segments_proper by done.
  by rewrite join_slash_app.
Qed.

Lemma SNAPSHOT_ROOT_of_normal_cwd_witness :
  (SNAPSHOT_ROOT (str "/" ++ join_slash [str "srv"; str "site"])
   = str "/" ++ join_slash [str "srv"; str "site"]
     ++ str "/reference/www.anthropic.com")
  /\ SNAPSHOT_ROOT (str "/" ++ join_slash [])
     = str "/reference/www.anthropic.com".
Proof.
  split.
  - apply (SNAPSHOT_ROOT_of_normal_cwd [str "srv"; str "site"]);
      repeat constructor; discriminate.
  - apply (SNAPSHOT_ROOT_of_normal_cwd []); constructor.
Defined.

End RootMore.

(** * The fixed points of [sanitizePath] *)

Section SanitizeFixed.
Import NodePath.

(** X19. A relative path already in normal form (non-empty segments other
    than ["."] and [".."], joined by single slashes) is left as it is, with
    or without one slash at its end: no character but the slash and the
    dots of ["."] and [".."] segments is interpreted, a percent-encoded
    [%2e%2e] is an ordinary segment. *)
Theorem sanitizePath_fixed_points S :
  S <> [] -> Forall proper S -> Forall no_slash S ->
  sanitizePath (join_slash S) = join_slash S
  /\ sanitizePath (join_slash S ++ str "/") = join_slash S ++ str "/".
Proof.
  intros Hne HP HS. split.
  - apply sanitizePath_relative_normal. by exists S.
  - rewrite sanitizePath_exact.
    assert (E : clean_segments (join_slash S ++ str "/") = S).
    { rewrite clean_segments_snoc_slash. unfold clean_segments.
      rewrite split_join by done. by apply normalize_segments_proper. }
    rewrite E. destruct (decide (S = [])); [done|].
    change ("/"%char :: join_slash S ++ str "/")
      with (("/"%char :: join_slash S) ++ [ "/"%char ]).
    by rewrite trailingSeparator_snoc.
Qed.

Lemma sanitizePath_fixed_points_witness :
  sanitizePath (join_slash [str "research"; str "%2e%2e"; str "x.html"])
  = join_slash [str "research"; str "%2e%2e"; str "x.html"]
  /\ sanitizePath
       (join_slash [str "research"; str "%2e%2e"; str "x.html"] ++ str "/")
     = join_slash [str "research"; str "%2e%2e"; str "x.html"] ++ str "/".
Proof.
  apply (sanitizePath_fixed_points
           [str "research"; str "%2e%2e"; str "x.html"]);
    [discriminate| |]; repeat constructor; discriminate.
Defined.

End SanitizeFixed.
